(** * auto-logo-cropper: a shallow embedding of [auto_logo_cropper/cli.py]

    The command-line tool trims the borders of logo images, rescales the
    trimmed logo into a margin-adjusted box and composes it onto a flat
    background.  This development embeds the functions of [cli.py] as Rocq
    functions over a small model of the Python run time (exceptions,
    optional integers, [str] operations, binary64 arithmetic) and of the
    Pillow operations the program calls, and states the properties of the
    specification over them.

    Layout: part I holds the definitions (modules [Py], [PIL], [Cli]);
    part II holds the lemmas and the theorems of the specification; part
    III holds further properties of the program. *)

From Stdlib Require Import ZArith Bool List Ascii String Lia.
From Stdlib Require Import Floats.SpecFloat.
From stdpp Require Import gmap strings list.

Local Open Scope Z_scope.

(* ===================================================================== *)
(** * Part I.  Definitions                                               *)
(* ===================================================================== *)

(** ** The Python run time *)

Module Py.

(** Exceptions the program can raise, by class.  The message of an
    exception is kept where the source gives one. *)
Inductive exn : Type :=
| ValueError
| TypeError
| IndexError
| ZeroDivisionError
| OverflowError
| AssertionError (msg : string)
| ArgumentTypeError (msg : string)
| FileNotFoundError
| UnidentifiedImageError.

(** A computation that returns or raises. *)
Inductive result (A : Type) : Type :=
| Ok (a : A)
| Raise (e : exn).
Arguments Ok {A} a.
Arguments Raise {A} e.

Definition bind {A B : Type} (c : result A) (k : A -> result B) : result B :=
  match c with
  | Ok a => k a
  | Raise e => Raise e
  end.

(** [assert cond, msg], as run by an interpreter that executes assertions
    (one started without [-O]). *)
Definition assert (cond : bool) (msg : string) : result unit :=
  if cond then Ok tt else Raise (AssertionError msg).

Fixpoint mapM {A B : Type} (f : A -> result B) (l : list A) : result (list B) :=
  match l with
  | [] => Ok []
  | x :: l' =>
      match f x with
      | Raise e => Raise e
      | Ok y =>
          match mapM f l' with
          | Raise e => Raise e
          | Ok ys => Ok (y :: ys)
          end
      end
  end.

(** The dynamically typed values of the program: the names unpacked in
    [parse_margin] hold an [int] or [None]; a colour option holds [None],
    the [str] given on the command line, or the list of its channels. *)
Inductive value : Type :=
| VNone
| VInt (n : Z)
| VStr (s : string)
| VList (l : list Z).

(** Truth value testing: [None], [0], the empty string and the empty list
    are false. *)
Definition truthy (v : value) : bool :=
  match v with
  | VNone => false
  | VInt n => negb (n =? 0)
  | VStr s => negb (String.eqb s EmptyString)
  | VList l => match l with [] => false | _ :: _ => true end
  end.

(** Arithmetic on an [Optional[int]] raises [TypeError] on [None]. *)
Definition as_int (v : value) : result Z :=
  match v with
  | VInt n => Ok n
  | _ => Raise TypeError
  end.

(** [l[i]] for a non-negative constant index. *)
Definition getitem {A : Type} (l : list A) (i : nat) : result A :=
  match nth_error l i with
  | Some x => Ok x
  | None => Raise IndexError
  end.

End Py.

Export Py.

Declare Scope py_scope.
Delimit Scope py_scope with py.
Notation "x <- c ;; k" := (Py.bind c (fun x => k))
  (at level 20, c at level 99, k at level 200, only parsing) : py_scope.
Notation "' p <- c ;; k" := (Py.bind c (fun unpacked => let 'p := unpacked in k))
  (at level 20, p pattern, c at level 99, k at level 200, only parsing) : py_scope.
Local Open Scope py_scope.

(** ** binary64 arithmetic

    Python's [float] is IEEE 754 binary64.  The operations are those of
    the Standard Library's executable specification [SpecFloat] at
    precision 53 and maximal exponent 1024, rounding to nearest, ties to
    even. *)

Module Float64.

Definition prec : Z := 53.
Definition emax : Z := 1024.

(** An integer as an unrounded dyadic number: mantissa [n], exponent 0. *)
Definition exact (n : Z) : spec_float :=
  match n with
  | Z0 => S754_zero false
  | Zpos p => S754_finite false p 0
  | Zneg p => S754_finite true p 0
  end.

(** [float(n)]: the integer rounded to the nearest binary64 number. *)
Definition of_int (n : Z) : spec_float := binary_normalize prec emax n 0 false.

Definition is_infinite (x : spec_float) : bool :=
  match x with S754_infinity _ => true | _ => false end.

(** [a / b] on two [int]s: the correctly rounded quotient of the two
    integers; a zero divisor raises, and so does a quotient too large for a
    [float]. *)
Definition truediv (a b : Z) : result spec_float :=
  if b =? 0 then Raise ZeroDivisionError
  else
    let q := SFdiv prec emax (exact a) (exact b) in
    if is_infinite q then Raise OverflowError else Ok q.

(** [x * n] for a [float] [x] and an [int] [n]: [n] is converted first. *)
Definition mul_int (x : spec_float) (n : Z) : result spec_float :=
  let y := of_int n in
  if is_infinite y then Raise OverflowError else Ok (SFmul prec emax x y).

(** [x > y] on two [float]s. *)
Definition gt (x y : spec_float) : bool := SFltb y x.

(** [int(x)]: truncation toward zero. *)
Definition to_int (x : spec_float) : result Z :=
  match x with
  | S754_zero _ => Ok 0
  | S754_finite s m e =>
      let mag := if 0 <=? e then Z.pos m * 2 ^ e else Z.pos m / 2 ^ (- e) in
      Ok (if s then - mag else mag)
  | S754_infinity _ => Raise OverflowError
  | S754_nan => Raise ValueError
  end.

End Float64.

(** ** [str] operations

    Strings are sequences of ASCII characters.  Python's [int] also reads
    the decimal digits and the white space of other scripts, and from
    version 3.11 it refuses a decimal literal of more than 4300 digits;
    both are outside this model, whose [int] reads ASCII literals of any
    length. *)

Module Str.

(** [s.split(sep)] for a one-character separator: never empty. *)
Fixpoint split (sep : ascii) (s : string) : list string :=
  match s with
  | EmptyString => [EmptyString]
  | String c s' =>
      if Ascii.eqb c sep then EmptyString :: split sep s'
      else
        match split sep s' with
        | w :: ws => String c w :: ws
        | [] => [String c EmptyString]
        end
  end.

Definition code (c : ascii) : Z := Z.of_N (N_of_ascii c).

(** The characters [int] skips around a literal: tab, line feed, vertical
    tab, form feed, carriage return, the four separators 28 to 31, and
    space. *)
Definition is_space (c : ascii) : bool :=
  let n := code c in
  ((9 <=? n) && (n <=? 13)) || ((28 <=? n) && (n <=? 31)) || (n =? 32).

Fixpoint lstrip (s : list ascii) : list ascii :=
  match s with
  | c :: s' => if is_space c then lstrip s' else s
  | [] => []
  end.

(** The value of a character as a digit, in any base up to 36. *)
Definition digit_value (c : ascii) : option Z :=
  let n := code c in
  if (48 <=? n) && (n <=? 57) then Some (n - 48)
  else if (97 <=? n) && (n <=? 122) then Some (n - 87)
  else if (65 <=? n) && (n <=? 90) then Some (n - 55)
  else None.

Definition digit_in (base : Z) (c : ascii) : option Z :=
  match digit_value c with
  | Some d => if d <? base then Some d else None
  | None => None
  end.

(** The digits of a literal, with single underscores between digits.
    Returns the value read, the number of digits read and the rest of the
    text; [None] on a doubled or trailing underscore. *)
Fixpoint scan_digits (base : Z) (acc : Z) (count : nat) (prev_underscore : bool)
    (s : list ascii) : option (Z * nat * list ascii) :=
  match s with
  | [] => if prev_underscore then None else Some (acc, count, [])
  | c :: s' =>
      if Ascii.eqb c "_"%char then
        if prev_underscore then None else scan_digits base acc count true s'
      else
        match digit_in base c with
        | Some d => scan_digits base (acc * base + d) (S count) false s'
        | None => if prev_underscore then None else Some (acc, count, s)
        end
  end.

(** The optional [0x] prefix of a base-16 literal, and the one underscore
    allowed after it. *)
Definition skip_prefix (base : Z) (s : list ascii) : list ascii :=
  match s with
  | "0"%char :: x :: s' =>
      if (base =? 16) && (Ascii.eqb x "x"%char || Ascii.eqb x "X"%char) then
        match s' with
        | "_"%char :: s'' => s''
        | _ => s'
        end
      else s
  | _ => s
  end.

(** [int(s, base)] for [base] 10 or 16: surrounding white space, an
    optional sign, then the digits.  Anything else is a [ValueError]. *)
Definition int_of_chars (base : Z) (s : list ascii) : result Z :=
  let s1 := lstrip s in
  let '(negative, s2) :=
    match s1 with
    | "+"%char :: r => (false, r)
    | "-"%char :: r => (true, r)
    | _ => (false, s1)
    end in
  let s3 := skip_prefix base s2 in
  match s3 with
  | "_"%char :: _ => Raise ValueError
  | _ =>
      match scan_digits base 0 0 false s3 with
      | Some (v, S _, rest) =>
          match lstrip rest with
          | [] => Ok (if negative then - v else v)
          | _ => Raise ValueError
          end
      | _ => Raise ValueError
      end
  end.

Definition int (s : string) (base : Z) : result Z :=
  int_of_chars base (list_ascii_of_string s).

(** [s[start : start + len]]: a slice is cut short at the end of [s]. *)
Definition slice (s : string) (start len : nat) : string := substring start len s.

(** [len(s)] *)
Definition len (s : string) : Z := Z.of_nat (String.length s).

End Str.

(** ** Path names *)

Module PathLib.

(** The index of the last full stop of [s], if any ([str.rfind]). *)
Fixpoint rfind_dot (s : string) : option nat :=
  match s with
  | EmptyString => None
  | String c s' =>
      match rfind_dot s' with
      | Some i => Some (S i)
      | None => if Ascii.eqb c "."%char then Some O else None
      end
  end.

(** [PurePosixPath(path).name]: the last component, where empty components
    and [.] components do not count. *)
Definition name (path : string) : string :=
  let parts :=
    List.filter (fun part => negb (String.eqb part "" || String.eqb part "."))
      (Str.split "/"%char path) in
  List.last parts EmptyString.

(** [Path(path).stem]: the name without its last suffix; a leading or a
    trailing full stop starts no suffix. *)
Definition stem (path : string) : string :=
  let n := name path in
  match rfind_dot n with
  | Some i =>
      if (0 <? i)%nat && (i <? String.length n - 1)%nat then substring 0 i n else n
  | None => n
  end.

End PathLib.

(** ** Pillow

    Images are rasters: a size and the rows of pixels, top row first.
    Pillow is a library, not part of the repository.  The operations the
    program calls on pixel data ([getpixel], [new], [crop], [convert],
    [posterize], [difference], [split], [point], [merge]) are defined on
    rasters after Pillow's documentation, [getbbox] after the contract the
    specification gives for it; decoding, Lanczos resampling, masked
    pasting, compositing, luminance conversion and PNG encoding are the
    interface [Imaging]. *)

Module PIL.

Record raster (P : Type) : Type := Raster {
  xsize : Z;
  ysize : Z;
  rows : list (list P)
}.
Arguments Raster {P} xsize ysize rows.
Arguments xsize {P} r.
Arguments ysize {P} r.
Arguments rows {P} r.

(** Pixels of the modes ["RGBA"], ["RGB"] and ["LA"]; a band (mode ["L"])
    has [Z] pixels.  Channel values are 8-bit. *)
Record rgba : Type := RGBA { red : Z; green : Z; blue : Z; alpha : Z }.
Record rgb : Type := RGB { r_ : Z; g_ : Z; b_ : Z }.
Record la : Type := LA { luminance : Z; la_alpha : Z }.

Definition byte_value (v : Z) : bool := (0 <=? v) && (v <=? 255).

Definition rgba_ok (p : rgba) : bool :=
  byte_value (red p) && byte_value (green p) && byte_value (blue p)
  && byte_value (alpha p).

(** The rows of a raster agree with its size. *)
Definition well_formed {P : Type} (im : raster P) : Prop :=
  Z.of_nat (List.length (rows im)) = ysize im /\
  Forall (fun row => Z.of_nat (List.length row) = xsize im) (rows im).

(** A bounding box [(left, upper, right, lower)]: the columns [left] to
    [right - 1] and the rows [upper] to [lower - 1]. *)
Definition box : Type := (Z * Z * Z * Z)%type.

(** The pixel at column [x] of row [y], if the raster has one. *)
Definition pixel_at {P : Type} (im : raster P) (x y : Z) : option P :=
  if (0 <=? x) && (x <? xsize im) && (0 <=? y) && (y <? ysize im) then
    match nth_error (rows im) (Z.to_nat y) with
    | Some row => nth_error row (Z.to_nat x)
    | None => None
    end
  else None.

(** [im.getpixel((x, y))] for non-negative coordinates. *)
Definition getpixel {P : Type} (im : raster P) (x y : Z) : result P :=
  match pixel_at im x y with
  | Some p => Ok p
  | None => Raise IndexError
  end.

(** [Image.new(mode, size, color)]: a flat raster, for a size without a
    negative side. *)
Definition new {P : Type} (size : Z * Z) (color : P) : raster P :=
  let '(w, h) := size in
  Raster w h (repeat (repeat color (Z.to_nat w)) (Z.to_nat h)).

Definition map_pixels {P Q : Type} (f : P -> Q) (im : raster P) : raster Q :=
  Raster (xsize im) (ysize im) (List.map (List.map f) (rows im)).

(** The columns of a row that hold a pixel counted as content, from
    column [x] on. *)
Fixpoint content_columns {P : Type} (content : P -> bool) (x : Z) (row : list P)
  : list Z :=
  match row with
  | [] => []
  | p :: row' =>
      if content p then x :: content_columns content (x + 1) row'
      else content_columns content (x + 1) row'
  end.

(** The coordinates of the content pixels, from row [y] on. *)
Fixpoint content_points {P : Type} (content : P -> bool) (y : Z)
    (rs : list (list P)) : list (Z * Z) :=
  match rs with
  | [] => []
  | row :: rs' =>
      List.map (fun x => (x, y)) (content_columns content 0 row)
      ++ content_points content (y + 1) rs'
  end.

(** The extent of a list of points. *)
Definition extent (pts : list (Z * Z)) : option box :=
  match pts with
  | [] => None
  | (x0, y0) :: pts' =>
      Some (fold_right Z.min x0 (List.map fst pts'),
            fold_right Z.min y0 (List.map snd pts'),
            fold_right Z.max x0 (List.map fst pts') + 1,
            fold_right Z.max y0 (List.map snd pts') + 1)
  end.

(** Modelled from the spec: [Image.getbbox], which is Pillow's and not in
    the repository.  The specification gives its contract: the smallest
    box containing every content pixel, and no box ([None]) when the image
    has no content.  [content] says which pixels count. *)
Definition getbbox {P : Type} (content : P -> bool) (im : raster P) : option box :=
  extent (content_points content 0 (rows im)).

(** On an ["RGBA"] image the content is the pixels of non-zero alpha; on
    an ["RGB"] image, the pixels with a non-zero channel. *)
Definition opaque (p : rgba) : bool := negb (alpha p =? 0).
Definition lit (p : rgb) : bool :=
  negb ((r_ p =? 0) && (g_ p =? 0) && (b_ p =? 0)).

(** [im.crop(box)]: the region of the box, transparent black outside the
    image; [im.crop(None)] copies the image. *)
Definition crop (im : raster rgba) (bounding_box : option box) : raster rgba :=
  match bounding_box with
  | None => im
  | Some (x0, y0, x1, y1) =>
      Raster (x1 - x0) (y1 - y0)
        (List.map
           (fun j =>
              List.map
                (fun i =>
                   match pixel_at im (x0 + Z.of_nat i) (y0 + Z.of_nat j) with
                   | Some p => p
                   | None => RGBA 0 0 0 0
                   end)
                (List.seq 0 (Z.to_nat (x1 - x0))))
           (List.seq 0 (Z.to_nat (y1 - y0))))
  end.

(** [im.convert("RGB")] on an ["RGBA"] image drops the alpha channel. *)
Definition convert_RGB (im : raster rgba) : raster rgb :=
  map_pixels (fun p => RGB (red p) (green p) (blue p)) im.

(** [ImageOps.posterize(im, bits)]: keep the [bits] upper bits of every
    channel. *)
Definition posterize_channel (bits : Z) (v : Z) : Z :=
  Z.land v (Z.lnot (2 ^ (8 - bits) - 1)).

Definition posterize (im : raster rgb) (bits : Z) : raster rgb :=
  map_pixels
    (fun p => RGB (posterize_channel bits (r_ p)) (posterize_channel bits (g_ p))
                  (posterize_channel bits (b_ p)))
    im.

(** [ImageChops.difference(a, b)]: the absolute difference, channel by
    channel, on the part the two images have in common. *)
Definition difference_pixel (p q : rgb) : rgb :=
  RGB (Z.abs (r_ p - r_ q)) (Z.abs (g_ p - g_ q)) (Z.abs (b_ p - b_ q)).

Fixpoint zip_with {A B C : Type} (f : A -> B -> C) (l1 : list A) (l2 : list B)
  : list C :=
  match l1, l2 with
  | a :: l1', b :: l2' => f a b :: zip_with f l1' l2'
  | _, _ => []
  end.

Definition same_size {P Q : Type} (a : raster P) (b : raster Q) : bool :=
  (xsize a =? xsize b) && (ysize a =? ysize b).

Definition difference (a b : raster rgb) : raster rgb :=
  Raster (Z.min (xsize a) (xsize b)) (Z.min (ysize a) (ysize b))
    (zip_with (zip_with difference_pixel) (rows a) (rows b)).

(** [im.split()] on an ["RGBA"] image: its four bands. *)
Definition split (im : raster rgba)
  : raster Z * raster Z * raster Z * raster Z :=
  (map_pixels red im, map_pixels green im, map_pixels blue im,
   map_pixels alpha im).

(** [band.point(f)]: [f] is tabulated on 0..255 and every pixel is
    replaced by the entry of its value. *)
Definition lookup_table (f : Z -> Z) : list Z :=
  List.map (fun i => f (Z.of_nat i)) (List.seq 0 256).

Definition point (f : Z -> Z) (band : raster Z) : raster Z :=
  let lut := lookup_table f in
  map_pixels (fun v => nth (Z.to_nat v) lut 0) band.

(** [Image.merge("RGBA", (r, g, b, a))]: the bands must have one size. *)
Definition merge (r g b a : raster Z) : result (raster rgba) :=
  if same_size r g && same_size r b && same_size r a then
    Ok (Raster (xsize r) (ysize r)
          (zip_with
             (fun rg ba =>
                zip_with (fun (p : Z * Z) (q : Z * Z) => RGBA (fst p) (snd p) (fst q) (snd q))
                  rg ba)
             (zip_with (zip_with pair) (rows r) (rows g))
             (zip_with (zip_with pair) (rows b) (rows a))))
  else Raise ValueError.

(** The image handed to [save]: ["RGBA"], or ["LA"] after the greyscale
    conversion. *)
Inductive image : Type :=
| ImageRGBA (im : raster rgba)
| ImageLA (im : raster la).

(** The operations of Pillow (and of the codecs behind it) that the
    program uses as given. *)
Class Imaging : Type := {
  (** [Image.open(path).convert("RGBA")] on the content of a file: the
      decoded image, or the exception the decoder raises
      ([UnidentifiedImageError] when the content is no raster image) *)
  decode : list Byte.byte -> result (raster rgba);
  (** [im.resize(size, Image.LANCZOS)] *)
  resize : raster rgba -> Z * Z -> result (raster rgba);
  (** [canvas.paste(im, position, mask)], as the pasted canvas *)
  paste : raster rgba -> raster rgba -> Z * Z -> raster rgba -> raster rgba;
  (** [Image.alpha_composite(below, above)] *)
  alpha_composite : raster rgba -> raster rgba -> result (raster rgba);
  (** [im.convert("LA")] *)
  convert_LA : raster rgba -> raster la;
  (** the bytes [im.save(path)] writes for a [.png] path *)
  encode_png : image -> list Byte.byte
}.

End PIL.

(** ** The program: [auto_logo_cropper/cli.py] *)

Module Cli.

Import Float64 PIL.

(** [hex2rgb(hex)] *)
Definition hex2rgb (hex : string) : result (list Z) :=
  _ <- assert (Str.len hex =? 6) "" ;;
  mapM (fun o => Str.int (Str.slice hex o 2) 16) [0%nat; 2%nat; 4%nat].

Definition is_hex_digit (c : ascii) : bool :=
  let n := Str.code c in
  ((65 <=? n) && (n <=? 70)) || ((97 <=? n) && (n <=? 102))
  || ((48 <=? n) && (n <=? 57)).

(** [is_hex(value)]: whether [re.match("^[A-Fa-f0-9]{6}$", value)] finds a
    match.  [$] matches at the end of the string and also just before a
    line feed that ends the string. *)
Definition is_hex (value : string) : bool :=
  let cs := list_ascii_of_string value in
  (List.length (firstn 6 cs) =? 6)%nat
  && forallb is_hex_digit (firstn 6 cs)
  && match skipn 6 cs with
     | [] => true
     | [c] => Ascii.eqb c "010"%char
     | _ => false
     end.

(** [parse_margin(margin)].  The starred unpacking binds [a], [b], [c], [d]
    to the first four entries of the parsed values padded with four
    [None]s. *)
Definition parse_margin (margin : string) : result (list value) :=
  ns <- mapM (fun n => v <- Str.int n 10 ;; Ok (VInt (Z.abs v)))
          (Str.split ","%char margin) ;;
  match ns ++ repeat VNone 4 with
  | a :: b :: c :: d :: ignore =>
      if truthy d then Ok [a; b; c; d]
      else if truthy c then Ok [a; b; c; b]
      else if truthy b then Ok [a; b; a; b]
      else if truthy a then Ok [a; a; a; a]
      else Ok [VInt 0; VInt 0; VInt 0; VInt 0]
  | _ => Raise ValueError
  end.

(** The [Namespace] that [argparse] hands to [parse_args]: [--height] and
    [--width] are [int]s, [--margin] is a [str] (default ["0"]), the two
    colour options are a [str] or [None]. *)
Record namespace : Type := Namespace {
  ns_images : list string;
  ns_height : Z;
  ns_width : Z;
  ns_margin : string;
  ns_background : option string;
  ns_output : string;
  ns_verbose : bool;
  ns_debug : bool;
  ns_greyscale : bool;
  ns_color : option string
}.

(** The same object once [parse_args] has rewritten its fields. *)
Record args : Type := Args {
  images : list string;
  height : Z;
  width : Z;
  margin : list value;
  background : value;
  output : string;
  verbose : bool;
  debug : bool;
  greyscale : bool;
  color : value
}.

(** The check of one colour option (lines 59-65 for [--color], 67-73 for
    [--background]; the two blocks differ by the option and its message). *)
Definition color_option (given : option string) (msg : string) : result value :=
  match given with
  | None => Ok VNone
  | Some s =>
      if truthy (VStr s) then
        if is_hex s then (c <- hex2rgb s ;; Ok (VList c))
        else Raise (ArgumentTypeError msg)
      else Ok (VStr s)
  end.

(** [parse_args], from the parsed [Namespace] on (lines 59-88). *)
Definition parse_args (ns : namespace) : result args :=
  color <- color_option (ns_color ns)
    "Please specify --color as 6-symbol HEX value e.g. --color ffab03" ;;
  background <- color_option (ns_background ns)
    "Please specify --background as 6-symbol HEX value e.g. --background ffab03" ;;
  let width := Z.abs (ns_width ns) in
  let height := Z.abs (ns_height ns) in
  margin <- parse_margin (ns_margin ns) ;;
  m1 <- getitem margin 1 ;;
  m3 <- getitem margin 3 ;;
  m1 <- as_int m1 ;;
  m3 <- as_int m3 ;;
  _ <- assert (width >? m1 + m3) "Width should be greater than sum of margins" ;;
  m0 <- getitem margin 0 ;;
  m2 <- getitem margin 2 ;;
  m0 <- as_int m0 ;;
  m2 <- as_int m2 ;;
  _ <- assert (height >? m0 + m2) "Height should be greater than sum of margins" ;;
  Ok {| images := ns_images ns; height := height; width := width;
        margin := margin; background := background; output := ns_output ns;
        verbose := ns_verbose ns; debug := ns_debug ns;
        greyscale := ns_greyscale ns; color := color |}.

(** A number that is an [int] or a [float], and [int(...)] on it. *)
Inductive number : Type :=
| NInt (n : Z)
| NFloat (x : spec_float).

Definition int_ (v : number) : result Z :=
  match v with
  | NInt n => Ok n
  | NFloat x => to_int x
  end.

(** The size computed by [resize_to_fit_bounding_box] (lines 94-105). *)
Definition new_img_size (img_width img_height bb_width bb_height : Z)
  : result (Z * Z) :=
  bb_ratio <- truediv bb_width bb_height ;;
  img_ratio <- truediv img_width img_height ;;
  '(new_img_width, new_img_height) <-
    (if gt bb_ratio img_ratio then
       (q <- truediv img_width img_height ;;
        new_img_width <- mul_int q bb_height ;;
        Ok (NFloat new_img_width, NInt bb_height))
     else
       (q <- truediv img_height img_width ;;
        new_img_height <- mul_int q bb_width ;;
        Ok (NInt bb_width, NFloat new_img_height))) ;;
  new_img_width <- int_ new_img_width ;;
  new_img_height <- int_ new_img_height ;;
  Ok (new_img_width, new_img_height).

(** [resize_to_fit_bounding_box(img, bb_width, bb_height)] *)
Definition resize_to_fit_bounding_box `{Imaging} (img : raster rgba)
    (bb_width bb_height : Z) : result (raster rgba * Z * Z) :=
  '(new_img_width, new_img_height) <-
    new_img_size (xsize img) (ysize img) bb_width bb_height ;;
  resized <- resize img (new_img_width, new_img_height) ;;
  Ok (resized, new_img_width, new_img_height).

(** The bounding box of the logo (lines 142-151 of [main]). *)
Definition bounding_box (image : raster rgba) : result (option box) :=
  probe <- getpixel image 3 3 ;;
  if alpha probe =? 0 then Ok (getbbox opaque image)
  else
    let posterized := posterize (convert_RGB image) 1 in
    ink <- getpixel posterized 3 3 ;;
    let background :=
      convert_RGB
        (new (xsize image, ysize image) (RGBA (r_ ink) (g_ ink) (b_ ink) 255)) in
    Ok (getbbox lit (difference posterized background)).

(** [top, right, bottom, left = args.margin], as integers. *)
Definition unpack_margin (margin : list value) : result (Z * Z * Z * Z) :=
  match margin with
  | [m_top; m_right; m_bottom; m_left] =>
      m_top <- as_int m_top ;;
      m_right <- as_int m_right ;;
      m_bottom <- as_int m_bottom ;;
      m_left <- as_int m_left ;;
      Ok (m_top, m_right, m_bottom, m_left)
  | _ => Raise ValueError
  end.

(** A colour tuple as the ink of an ["RGBA"] image: alpha defaults to
    255. *)
Definition rgba_ink (channels : list Z) : result rgba :=
  match channels with
  | [r; g; b; a] => Ok (RGBA r g b a)
  | [r; g; b] => Ok (RGBA r g b 255)
  | _ => Raise TypeError
  end.

(** The recolouring of the resized logo (lines 167-173). *)
Definition recolor (color : list Z) (resized : raster rgba) : result (raster rgba) :=
  let '(r, g, b, a) := split resized in
  c0 <- getitem color 0 ;;
  let r := point (fun v => c0) r in
  c1 <- getitem color 1 ;;
  let g := point (fun v => c1) g in
  c2 <- getitem color 2 ;;
  let b := point (fun v => c2) b in
  merge r g b a.

(** The position at which the logo is pasted (lines 178-181). *)
Definition paste_position (width height top right bottom left rw rh : Z) : Z * Z :=
  (left + (width - left - right - rw) / 2,
   top + (height - top - bottom - rh) / 2).

(** The body of the loop of [main] for one decoded image, up to the image
    that is saved (lines 142-189). *)
Definition process `{Imaging} (a : args) (image : raster rgba) : result PIL.image :=
  bounding_box <- bounding_box image ;;
  let cropped := crop image bounding_box in
  '(m_top, m_right, m_bottom, m_left) <- unpack_margin (margin a) ;;
  '(resized, rw, rh) <-
    resize_to_fit_bounding_box cropped (width a - m_left - m_right)
      (height a - m_top - m_bottom) ;;
  background_color <- getpixel image 3 3 ;;
  background_color <-
    (if truthy (background a) then
       match background a with
       | VList l => rgba_ink (l ++ [255])
       | _ => Raise TypeError
       end
     else Ok background_color) ;;
  resized <-
    (if truthy (color a) then
       match color a with
       | VList l => recolor l resized
       | _ => Raise TypeError
       end
     else Ok resized) ;;
  let logo_layer := new (width a, height a) (RGBA 128 128 128 0) in
  let logo_layer :=
    paste logo_layer resized
      (paste_position (width a) (height a) m_top m_right m_bottom m_left rw rh)
      resized in
  let background := new (width a, height a) background_color in
  final <- alpha_composite background logo_layer ;;
  Ok (if greyscale a then ImageLA (convert_LA final) else ImageRGBA final).

(** What a run does to its environment, in order. *)
Inductive event : Type :=
| PrintArgs (a : args)
| Mkdir (path : string)
| Open (path : string)
| LogInfo (msg : string)
| LogWarning (msg : string)
| Save (path : string) (content : list Byte.byte).

(** The environment: the files by path name, and the events so far, the
    latest first.  A file is known by the path string the program uses for
    it: two spellings of the name of one file (["cropped/a.png"] and
    ["./cropped/a.png"]) are two names here, so a run that reads under one
    spelling what it wrote under another is outside this model. *)
Record world : Type := World {
  files : gmap string (list Byte.byte);
  events : list event
}.

Definition emit (e : event) (w : world) : world :=
  World (files w) (e :: events w).

(** [Image.open(path).convert("RGBA")]: a missing file raises
    [FileNotFoundError]. *)
Definition open_image `{Imaging} (w : world) (path : string) : result (raster rgba) :=
  match files w !! path with
  | None => Raise FileNotFoundError
  | Some content => decode content
  end.

(** The path [final.save] writes to.  Pillow picks the encoder by the
    extension of the path, which is [.png] unless the stem is made of dots
    only; for such a stem [final.save] raises, where [save] below writes. *)
Definition output_path (output : string) (path : string) : string :=
  ("./" ++ output ++ "/" ++ PathLib.stem path ++ ".png")%string.

Definition save `{Imaging} (final : PIL.image) (path : string) (w : world) : world :=
  let content := encode_png final in
  World (<[path := content]> (files w)) (Save path content :: events w).

(** The loop of [main] (lines 125-191).  The two exceptions of the [try]
    are caught and logged; [if not image: continue] then skips the path.
    Any other exception ends the run. *)
Fixpoint run_images `{Imaging} (a : args) (paths : list string) (w : world)
  : result unit * world :=
  match paths with
  | [] => (Ok tt, w)
  | path :: rest =>
      let w := emit (Open path) w in
      match open_image w path with
      | Raise FileNotFoundError =>
          run_images a rest (emit (LogWarning (" File `" ++ path ++ "` not found")) w)
      | Raise UnidentifiedImageError =>
          run_images a rest
            (emit (LogWarning (" File `" ++ path ++ "` can't be opened")) w)
      | Raise e => (Raise e, w)
      | Ok image =>
          let w :=
            if verbose a
            then emit (LogInfo (" Image `" ++ path ++ "` correctly opened")) w
            else w in
          match process a image with
          | Raise e => (Raise e, w)
          | Ok final =>
              run_images a rest (save final (output_path (output a) path) w)
          end
      end
  end.

(** [main], from the parsed [Namespace] on. *)
Definition main `{Imaging} (ns : namespace) (w : world) : result unit * world :=
  match parse_args ns with
  | Raise e => (Raise e, w)
  | Ok a =>
      let w := if debug a then emit (PrintArgs a) w else w in
      let w := emit (Mkdir (output a)) w in
      run_images a (images a) w
  end.

End Cli.

(** ** The specification's own definitions

    These follow the wording of the specification, not the source; the
    theorems of part II compare the program with them. *)

Module Spec.

Import PIL.

(** [center_offset(canvas_dim, content_dim, margin_near, margin_far)] *)
Definition center_offset (canvas_dim content_dim margin_near margin_far : Z) : Z :=
  margin_near + (canvas_dim - margin_near - margin_far - content_dim) / 2.

(** [resize_to_fit]: the box ratio is compared with the image ratio as
    exact fractions, and the scaled side is floored. *)
Definition resize_to_fit (image_width image_height box_width box_height : Z)
  : Z * Z :=
  if image_width * box_height <? box_width * image_height then
    (image_width * box_height / image_height, box_height)
  else
    (box_width, image_height * box_width / image_width).

(** The broadcast rules of a margin, on the values given. *)
Definition broadcast (vs : list Z) : list Z :=
  match vs with
  | [] => [0; 0; 0; 0]
  | [v1] => [v1; v1; v1; v1]
  | [v1; v2] => [v1; v2; v1; v2]
  | [v1; v2; v3] => [v1; v2; v3; v2]
  | v1 :: v2 :: v3 :: v4 :: _ => [v1; v2; v3; v4]
  end.

(** The integers of a margin string, before sign normalization. *)
Definition margin_integers (margin : string) : result (list Z) :=
  mapM (fun n => Str.int n 10) (Str.split ","%char margin).

(** Exactly six hexadecimal digits, in either case. *)
Definition six_hex_digits (s : string) : bool :=
  (String.length s =? 6)%nat
  && forallb Cli.is_hex_digit (list_ascii_of_string s).

(** A string in lower case, to compare strings regardless of case. *)
Definition lower_char (c : ascii) : ascii :=
  let n := Str.code c in
  if (65 <=? n) && (n <=? 90) then ascii_of_N (Z.to_N (n + 32)) else c.


(** The value of a hexadecimal digit. *)
Definition hex_value (c : ascii) : Z :=
  match Str.digit_value c with Some d => d | None => 0 end.

(** [bx] contains every content pixel of [im]. *)
Definition encloses {P : Type} (content : P -> bool) (im : raster P) (bx : box) : Prop :=
  let '(x0, y0, x1, y1) := bx in
  forall x y p, pixel_at im x y = Some p -> content p = true ->
    x0 <= x < x1 /\ y0 <= y < y1.

(** [bx] is the smallest box containing every content pixel of [im]: it
    contains them, and every such box contains [bx]. *)
Definition smallest_box {P : Type} (content : P -> bool) (im : raster P) (bx : box)
  : Prop :=
  encloses content im bx /\
  forall bx', encloses content im bx' ->
    let '(x0, y0, x1, y1) := bx in
    let '(x0', y0', x1', y1') := bx' in
    x0' <= x0 /\ y0' <= y0 /\ x1 <= x1' /\ y1 <= y1'.

End Spec.

(** ** A small instance of [Imaging]

    A self-contained implementation of the interface on which the model
    runs: files hold the width, the height and then the pixels of an image
    as raw bytes; resampling takes the nearest pixel. *)

Module Reference.

Import PIL.

Definition byte_of_Z (v : Z) : Byte.byte :=
  match Byte.of_N (Z.to_N (v mod 256)) with
  | Some b => b
  | None => Byte.x00
  end.

Definition Z_of_byte (b : Byte.byte) : Z := Z.of_N (Byte.to_N b).

Fixpoint pixels_of_bytes (n : nat) (bs : list Z) : option (list rgba) :=
  match n with
  | O => match bs with [] => Some [] | _ => None end
  | S n' =>
      match bs with
      | r :: g :: b :: a :: bs' =>
          match pixels_of_bytes n' bs' with
          | Some ps => Some (RGBA r g b a :: ps)
          | None => None
          end
      | _ => None
      end
  end.

Fixpoint chunks {A : Type} (w : nat) (h : nat) (l : list A) : list (list A) :=
  match h with
  | O => []
  | S h' => firstn w l :: chunks w h' (skipn w l)
  end.

Definition decode_raw (content : list Byte.byte) : result (raster rgba) :=
  match List.map Z_of_byte content with
  | w :: h :: bs =>
      match pixels_of_bytes (Z.to_nat (w * h)) bs with
      | Some ps => Ok (Raster w h (chunks (Z.to_nat w) (Z.to_nat h) ps))
      | None => Raise UnidentifiedImageError
      end
  | _ => Raise UnidentifiedImageError
  end.

Definition pixel_or {P : Type} (im : raster P) (x y : Z) (d : P) : P :=
  match pixel_at im x y with Some p => p | None => d end.

(** A raster given by its pixels as a function of the coordinates. *)
Definition tabulate {P : Type} (w h : Z) (f : Z -> Z -> P) : raster P :=
  Raster w h
    (List.map (fun j => List.map (fun i => f (Z.of_nat i) (Z.of_nat j))
                          (List.seq 0 (Z.to_nat w)))
       (List.seq 0 (Z.to_nat h))).

Definition resize_nearest (im : raster rgba) (size : Z * Z) : result (raster rgba) :=
  let '(w, h) := size in
  if (0 <? w) && (0 <? h) then
    Ok (tabulate w h
          (fun i j => pixel_or im (i * xsize im / w) (j * ysize im / h) (RGBA 0 0 0 0)))
  else Raise ValueError.

Definition paste_masked (canvas im : raster rgba) (position : Z * Z)
    (mask : raster rgba) : raster rgba :=
  let '(x, y) := position in
  tabulate (xsize canvas) (ysize canvas)
    (fun i j =>
       let under := pixel_or canvas i j (RGBA 0 0 0 0) in
       match pixel_at mask (i - x) (j - y), pixel_at im (i - x) (j - y) with
       | Some m, Some p => if alpha m =? 0 then under else p
       | _, _ => under
       end).

Definition composite_over (below above : raster rgba) : result (raster rgba) :=
  if same_size below above then
    Ok (tabulate (xsize below) (ysize below)
          (fun i j =>
             let b := pixel_or below i j (RGBA 0 0 0 0) in
             let a := pixel_or above i j (RGBA 0 0 0 0) in
             if alpha a =? 0 then b else a))
  else Raise ValueError.

Definition grey (im : raster rgba) : raster la :=
  map_pixels (fun p => LA ((red p + green p + blue p) / 3) (alpha p)) im.

Definition encode_raw (im : image) : list Byte.byte :=
  match im with
  | ImageRGBA r =>
      List.map byte_of_Z
        (xsize r :: ysize r
         :: concat (List.map (fun p => [red p; green p; blue p; alpha p])
                      (concat (rows r))))
  | ImageLA r =>
      List.map byte_of_Z
        (xsize r :: ysize r
         :: concat (List.map (fun p => [luminance p; la_alpha p]) (concat (rows r))))
  end.

#[export] Instance imaging : Imaging := {|
  decode := decode_raw;
  resize := resize_nearest;
  paste := paste_masked;
  alpha_composite := composite_over;
  convert_LA := grey;
  encode_png := encode_raw
|}.

End Reference.

(** ** Files written by a run, and inputs to run the model on *)

(** The files after a list of writes, the first write first. *)
Definition write_all (writes : list (string * list Byte.byte))
    (f : gmap string (list Byte.byte)) : gmap string (list Byte.byte) :=
  fold_left (fun m kv => <[fst kv := snd kv]> m) writes f.

Module Examples.

Import PIL Cli Reference.

(** A 40x40 image, transparent but for the columns and rows 10 to 29. *)
Definition logo_40 : raster rgba :=
  tabulate 40 40
    (fun i j =>
       if (10 <=? i) && (i <? 30) && (10 <=? j) && (j <? 30)
       then RGBA 200 30 30 255 else RGBA 0 0 0 0).

(** A 6x6 image, transparent but for a 2x3 block away from the probe. *)
Definition logo_6 : raster rgba :=
  tabulate 6 6
    (fun i j =>
       if (0 <=? i) && (i <? 2) && (0 <=? j) && (j <? 3)
       then RGBA 200 30 30 255 else RGBA 0 0 0 0).

Definition logo_file : list Byte.byte := encode_raw (ImageRGBA logo_6).

(** A run on one image, one missing file and one file that is no image. *)
Definition ns : namespace :=
  Namespace ["a/logo.raw"; "missing.png"; "junk.txt"]%string 8 8 "1" None "cropped"
    false false false (Some "ffab03"%string).

Definition disk : gmap string (list Byte.byte) :=
  <["a/logo.raw"%string := logo_file]> (<["junk.txt"%string := [Byte.x01]]> ∅).

Definition parsed : args :=
  Args ["a/logo.raw"; "missing.png"; "junk.txt"]%string 8 8
    [VInt 1; VInt 1; VInt 1; VInt 1] VNone "cropped" false false false
    (VList [255; 171; 3]).

End Examples.

(** ** Notions to state how the program behaves *)

Module Behaviour.

Import PIL Cli.

(** A list of values without the zeros at its end. *)
Fixpoint drop_trailing_zeros (vs : list Z) : list Z :=
  match vs with
  | [] => []
  | v :: vs' =>
      match drop_trailing_zeros vs' with
      | [] => if v =? 0 then [] else [v]
      | rest => v :: rest
      end
  end.

(** The half of the range 0..255 a channel lies in: all that
    [posterize(..., 1)] keeps of it. *)
Definition upper_half (v : Z) : bool := 128 <=? v.

(** A pixel stands out against the probe pixel when one of its colour
    channels lies in the other half of the range. *)
Definition stands_out (probe p : rgba) : bool :=
  xorb (upper_half (red p)) (upper_half (red probe))
  || xorb (upper_half (green p)) (upper_half (green probe))
  || xorb (upper_half (blue p)) (upper_half (blue probe)).

(** The paths opened, in the order of a list of events. *)
Definition opened (evs : list event) : list string :=
  flat_map (fun e => match e with Open path => [path] | _ => [] end) evs.

Definition is_save (e : event) : bool :=
  match e with Save _ _ => true | _ => false end.

Definition is_warning (e : event) : bool :=
  match e with LogWarning _ => true | _ => false end.

(** The events that do not depend on [--verbose] and [--debug]. *)
Definition quiet (evs : list event) : list event :=
  List.filter
    (fun e => match e with LogInfo _ | PrintArgs _ => false | _ => true end) evs.

(** A [Namespace] with other [--verbose] and [--debug] flags. *)
Definition with_logging (ns : namespace) (v d : bool) : namespace :=
  Namespace (ns_images ns) (ns_height ns) (ns_width ns) (ns_margin ns)
    (ns_background ns) (ns_output ns) v d (ns_greyscale ns) (ns_color ns).

End Behaviour.

Module MoreExamples.

Import PIL Cli Reference.

(** An 8x8 white image with a dark 2x3 block. *)
Definition dark_on_white : raster rgba :=
  tabulate 8 8
    (fun i j =>
       if (4 <=? i) && (i <? 6) && (4 <=? j) && (j <? 7)
       then RGBA 10 20 30 255 else RGBA 255 255 255 255).

(** A 4x4 image without a visible pixel. *)
Definition blank : raster rgba := tabulate 4 4 (fun _ _ => RGBA 0 0 0 0).

(** A 3x5 image: too narrow for the probe pixel. *)
Definition narrow : raster rgba := tabulate 3 5 (fun _ _ => RGBA 0 0 0 0).

Definition narrow_file : list Byte.byte := encode_raw (ImageRGBA narrow).

Definition narrow_disk : gmap string (list Byte.byte) :=
  <["thin.raw"%string := narrow_file]> Examples.disk.

End MoreExamples.

(* ===================================================================== *)
(** * Part II.  Properties                                               *)
(* ===================================================================== *)

Import PIL Cli.

(** ** The error monad *)

Lemma bind_ok {A B : Type} (c : result A) (k : A -> result B) (b : B) :
  Py.bind c k = Ok b -> exists a, c = Ok a /\ k a = Ok b.
Proof. destruct c as [a|e]; simpl; [eauto | discriminate]. Qed.

Lemma bind_raise {A B : Type} (c : result A) (k : A -> result B) (e : exn) :
  c = Raise e -> Py.bind c k = Raise e.
Proof. intros ->. reflexivity. Qed.

Lemma mapM_map {A B C : Type} (f : A -> result B) (g : B -> C) (l : list A)
    (vs : list B) :
  mapM f l = Ok vs ->
  mapM (fun x => Py.bind (f x) (fun v => Ok (g v))) l = Ok (List.map g vs).
Proof.
  revert vs. induction l as [|x l IH]; intros vs; simpl.
  - intros [= <-]. reflexivity.
  - destruct (f x) as [y|e]; [|discriminate]. simpl.
    destruct (mapM f l) as [ys|e]; [|discriminate].
    intros [= <-]. rewrite (IH ys eq_refl). reflexivity.
Qed.

Lemma mapM_length {A B : Type} (f : A -> result B) (l : list A) (vs : list B) :
  mapM f l = Ok vs -> List.length vs = List.length l.
Proof.
  revert vs. induction l as [|x l IH]; intros vs; simpl.
  - intros [= <-]. reflexivity.
  - destruct (f x) as [y|e]; [|discriminate].
    destruct (mapM f l) as [ys|e]; [|discriminate].
    intros [= <-]. simpl. f_equal. apply IH. reflexivity.
Qed.

Lemma mapM_app {A B : Type} (f : A -> result B) (l1 l2 : list A) (vs : list B) :
  mapM f (l1 ++ l2) = Ok vs ->
  exists vs1 vs2, mapM f l1 = Ok vs1 /\ mapM f l2 = Ok vs2 /\ vs = vs1 ++ vs2.
Proof.
  revert vs. induction l1 as [|x l1 IH]; intros vs; simpl.
  - intros H. exists [], vs. auto.
  - destruct (f x) as [y|e]; [|discriminate].
    destruct (mapM f (l1 ++ l2)) as [ys|e] eqn:E; [|discriminate].
    intros [= <-]. destruct (IH ys eq_refl) as (vs1 & vs2 & -> & -> & ->).
    exists (y :: vs1), vs2. auto.
Qed.

(** ** [resize_to_fit_bounding_box] *)

(** X8.  One side of the computed size is the side of the box, untouched
    by the floating-point arithmetic. *)
Lemma new_img_size_exact_side (img_width img_height bb_width bb_height w h : Z) :
  new_img_size img_width img_height bb_width bb_height = Ok (w, h) ->
  w = bb_width \/ h = bb_height.
Proof.
  unfold new_img_size. intros H.
  apply bind_ok in H as (bb_ratio & _ & H).
  apply bind_ok in H as (img_ratio & _ & H).
  apply bind_ok in H as ([nw nh] & Hbranch & H).
  apply bind_ok in H as (w' & Hw & H).
  apply bind_ok in H as (h' & Hh & H).
  injection H as <- <-.
  destruct (Float64.gt bb_ratio img_ratio).
  - apply bind_ok in Hbranch as (q & _ & Hbranch).
    apply bind_ok in Hbranch as (x & _ & Hbranch).
    injection Hbranch as <- <-. right. simpl in Hh. congruence.
  - apply bind_ok in Hbranch as (q & _ & Hbranch).
    apply bind_ok in Hbranch as (x & _ & Hbranch).
    injection Hbranch as <- <-. left. simpl in Hw. congruence.
Qed.

(** The specification's [resize_to_fit] does what the specification asks
    of it: the size fits the box, one side is the side of the box, and the
    other is the proportional side rounded down, less than one pixel below
    the exact value. *)
Lemma resize_to_fit_fits (image_width image_height box_width box_height : Z) :
  0 < image_width -> 0 < image_height -> 0 < box_width -> 0 < box_height ->
  let '(w, h) := Spec.resize_to_fit image_width image_height box_width box_height in
  0 <= w <= box_width /\ 0 <= h <= box_height /\
  ((h = box_height /\
    w * image_height <= image_width * box_height < (w + 1) * image_height) \/
   (w = box_width /\
    h * image_width <= image_height * box_width < (h + 1) * image_width)).
Proof.
  intros Hiw Hih Hbw Hbh. unfold Spec.resize_to_fit.
  destruct (Z.ltb_spec (image_width * box_height) (box_width * image_height)) as [Hlt|Hge].
  - pose proof (Z.div_mod (image_width * box_height) image_height ltac:(lia)) as Hdm.
    pose proof (Z.mod_pos_bound (image_width * box_height) image_height Hih) as Hmod.
    set (q := image_width * box_height / image_height) in *.
    assert (0 <= q) by (apply Z.div_pos; nia).
    repeat split; try lia; nia.
  - pose proof (Z.div_mod (image_height * box_width) image_width ltac:(lia)) as Hdm.
    pose proof (Z.mod_pos_bound (image_height * box_width) image_width Hiw) as Hmod.
    set (q := image_height * box_width / image_width) in *.
    assert (0 <= q) by (apply Z.div_pos; nia).
    repeat split; try lia; nia.
Qed.

(** C1.  The claim: for positive sizes the result keeps the aspect ratio
    up to truncation, fits the box, and the scaled side is the
    proportional side truncated.  The program computes the scaled side in
    binary64 arithmetic, and there it loses a pixel: a 1x49 image in a 49x49
    box keeps its size by the claim, and the program gives it width 0; a
    300x1100 image in a 55x55 box is 15 wide by the claim and 14 wide by
    the program. *)
Theorem resize_to_fit_bounding_box_loses_a_pixel :
  new_img_size 1 49 49 49 = Ok (0, 49) /\
  Spec.resize_to_fit 1 49 49 49 = (1, 49) /\
  new_img_size 300 1100 55 55 = Ok (14, 55) /\
  Spec.resize_to_fit 300 1100 55 55 = (15, 55).
Proof. repeat split; vm_compute; reflexivity. Qed.

(** ** [parse_margin] *)

(** The chain of truth tests of [parse_margin], on the unpacked names. *)
Lemma parse_margin_values (s : string) (vs : list Z) :
  Spec.margin_integers s = Ok vs ->
  parse_margin s =
    match List.map (fun v => VInt (Z.abs v)) vs ++ repeat VNone 4 with
    | a :: b :: c :: d :: _ =>
        if truthy d then Ok [a; b; c; d]
        else if truthy c then Ok [a; b; c; b]
        else if truthy b then Ok [a; b; a; b]
        else if truthy a then Ok [a; a; a; a]
        else Ok [VInt 0; VInt 0; VInt 0; VInt 0]
    | _ => Raise ValueError
    end.
Proof.
  unfold Spec.margin_integers, parse_margin. intros H.
  rewrite (mapM_map _ (fun v => VInt (Z.abs v)) _ _ H). reflexivity.
Qed.

Lemma truthy_abs (v : Z) : truthy (VInt (Z.abs v)) = negb (v =? 0).
Proof. simpl. f_equal. destruct v; reflexivity. Qed.

Lemma truthy_abs_nonzero (v : Z) : v <> 0 -> truthy (VInt (Z.abs v)) = true.
Proof. intros H. rewrite truthy_abs. destruct (Z.eqb_spec v 0); [contradiction|reflexivity]. Qed.

(** There is always a first field: [split] never returns an empty list. *)
Lemma split_nonempty (sep : ascii) (s : string) : Str.split sep s <> [].
Proof.
  destruct s as [|c s]; simpl; [discriminate|].
  destruct (Ascii.eqb c sep); [discriminate|].
  destruct (Str.split sep s); discriminate.
Qed.

(** The broadcast rules hold for every margin string whose last value
    looked at is not zero: then one value gives four equal sides, two
    values [v1, v2, v1, v2], three [v1, v2, v3, v2], four or more the first
    four, each value as its absolute value. *)
Lemma parse_margin_broadcast (s : string) (vs : list Z) :
  Spec.margin_integers s = Ok vs ->
  (List.length vs <= 1)%nat \/ nth (Nat.min (List.length vs) 4 - 1) vs 0 <> 0 ->
  parse_margin s = Ok (List.map VInt (Spec.broadcast (List.map Z.abs vs))).
Proof.
  intros H Hlast. rewrite (parse_margin_values s vs H).
  assert (Hne : vs <> []).
  { intros ->. unfold Spec.margin_integers in H.
    apply mapM_length in H. simpl in H.
    pose proof (split_nonempty ","%char s) as Hs.
    destruct (Str.split ","%char s); [congruence|discriminate]. }
  destruct vs as [|v1 [|v2 [|v3 [|v4 rest]]]]; [congruence| | | |].
  - simpl. destruct (Z.eqb_spec (Z.abs v1) 0) as [->|]; reflexivity.
  - destruct Hlast as [Hl|Hl]; [simpl in Hl; lia|]. simpl in Hl.
    cbn [List.map app repeat].
    rewrite (truthy_abs_nonzero v2 Hl). reflexivity.
  - destruct Hlast as [Hl|Hl]; [simpl in Hl; lia|]. simpl in Hl.
    cbn [List.map app repeat].
    rewrite (truthy_abs_nonzero v3 Hl). reflexivity.
  - destruct Hlast as [Hl|Hl]; [simpl in Hl; lia|].
    simpl in Hl. rewrite Nat.min_0_r in Hl.
    cbn [List.map app repeat].
    rewrite (truthy_abs_nonzero v4 Hl). reflexivity.
Qed.

(** C2.  The claim: the broadcast rules, with four values kept exactly as
    given and the empty string giving four zeros.  The program tests the
    unpacked names for truth, so a value 0 counts as a value not given:
    ["1,2,3,0"] gives [[1,2,3,2]] where the rules give [[1,2,3,0]], and
    ["5,0"] gives [[5,5,5,5]] where they give [[5,0,5,0]].  The empty string
    has one field, the empty one, on which [int] raises. *)
Theorem parse_margin_takes_zero_for_absent :
  parse_margin "1,2,3,0" = Ok [VInt 1; VInt 2; VInt 3; VInt 2] /\
  Spec.broadcast [1; 2; 3; 0] = [1; 2; 3; 0] /\
  parse_margin "5,0" = Ok [VInt 5; VInt 5; VInt 5; VInt 5] /\
  Spec.broadcast [5; 0] = [5; 0; 5; 0] /\
  parse_margin "" = Raise ValueError.
Proof. repeat split; vm_compute; reflexivity. Qed.

(** The examples of the specification that the program does meet. *)
Lemma parse_margin_examples :
  parse_margin "5" = Ok [VInt 5; VInt 5; VInt 5; VInt 5] /\
  parse_margin "1,2" = Ok [VInt 1; VInt 2; VInt 1; VInt 2] /\
  parse_margin "1,2,3" = Ok [VInt 1; VInt 2; VInt 3; VInt 2] /\
  parse_margin "1,2,3,4" = Ok [VInt 1; VInt 2; VInt 3; VInt 4] /\
  parse_margin "0" = Ok [VInt 0; VInt 0; VInt 0; VInt 0] /\
  parse_margin "-5" = Ok [VInt 5; VInt 5; VInt 5; VInt 5].
Proof. repeat split; vm_compute; reflexivity. Qed.

(** What the program does with more than four integers: the string is
    accepted, and its result is that of the string of its first four
    fields, so the values after the fourth are parsed and then ignored.
    When the fourth value is not zero the result is the first four values,
    sign-normalized. *)
Theorem parse_margin_ignores_values_after_fourth
    (s s4 f1 f2 f3 f4 : string) (rest : list string) (vs : list Z) :
  Str.split ","%char s = f1 :: f2 :: f3 :: f4 :: rest ->
  rest <> [] ->
  Str.split ","%char s4 = [f1; f2; f3; f4] ->
  Spec.margin_integers s = Ok vs ->
  parse_margin s = parse_margin s4 /\
  exists m, parse_margin s = Ok m /\
    (nth 3 vs 0 <> 0 -> m = List.map VInt (List.map Z.abs (firstn 4 vs))).
Proof.
  intros Hs Hrest Hs4 Hvs.
  assert (H4 : exists v1 v2 v3 v4 vr,
             vs = v1 :: v2 :: v3 :: v4 :: vr /\
             Spec.margin_integers s4 = Ok [v1; v2; v3; v4]).
  { unfold Spec.margin_integers in *. rewrite Hs in Hvs. rewrite Hs4.
    change (f1 :: f2 :: f3 :: f4 :: rest) with ([f1; f2; f3; f4] ++ rest) in Hvs.
    apply mapM_app in Hvs as (vs1 & vs2 & H1 & _ & ->).
    pose proof (mapM_length _ _ _ H1) as Hlen.
    destruct vs1 as [|v1 [|v2 [|v3 [|v4 [|]]]]]; try discriminate.
    exists v1, v2, v3, v4, vs2. auto. }
  destruct H4 as (v1 & v2 & v3 & v4 & vr & -> & Hvs4).
  rewrite (parse_margin_values s _ Hvs), (parse_margin_values s4 _ Hvs4).
  cbn [List.map app repeat].
  split; [reflexivity|].
  destruct (truthy (VInt (Z.abs v4))) eqn:E4.
  - eexists; split; [reflexivity|]. reflexivity.
  - rewrite truthy_abs in E4. destruct (Z.eqb_spec v4 0) as [Hz|]; [|discriminate].
    destruct (truthy (VInt (Z.abs v3)));
      [|destruct (truthy (VInt (Z.abs v2)));
         [|destruct (truthy (VInt (Z.abs v1)))]];
      eexists; (split; [reflexivity|]); simpl; intros; congruence.
Qed.

Lemma parse_margin_ignores_values_after_fourth_witness :
  parse_margin "1,2,3,4,5" = parse_margin "1,2,3,4" /\
  exists m, parse_margin "1,2,3,4,5" = Ok m /\
    (nth 3 [1; 2; 3; 4; 5] 0 <> 0 ->
     m = List.map VInt (List.map Z.abs (firstn 4 [1; 2; 3; 4; 5]))).
Proof.
  apply (parse_margin_ignores_values_after_fourth
           "1,2,3,4,5" "1,2,3,4" "1" "2" "3" "4" ["5"%string] [1; 2; 3; 4; 5]).
  - reflexivity.
  - discriminate.
  - reflexivity.
  - reflexivity.
Defined.

(** C10.  The claim: with more than four integers the broadcast rules
    are applied to the first four values, the others being ignored.  The
    values after the fourth are ignored, but the fourth is tested for truth
    like the others: ["1,2,3,0,5"] is accepted and gives [[1,2,3,2]], the
    result of ["1,2,3,0"], where the first four values are [[1,2,3,0]] and
    the rules keep four values as they are. *)
Theorem parse_margin_fourth_zero_among_more_values :
  Spec.margin_integers "1,2,3,0,5" = Ok [1; 2; 3; 0; 5] /\
  parse_margin "1,2,3,0,5" = Ok [VInt 1; VInt 2; VInt 3; VInt 2] /\
  parse_margin "1,2,3,0,5" = parse_margin "1,2,3,0" /\
  Spec.broadcast (firstn 4 (List.map Z.abs [1; 2; 3; 0; 5])) = [1; 2; 3; 0].
Proof. repeat split; vm_compute; reflexivity. Qed.

(** ** The placement of the logo *)

(** C3.  The position at which [main] pastes the resized logo is, on each
    axis by itself, the near margin plus half of the free space, rounded
    down: horizontally from the canvas width and the left and right
    margins, vertically from the canvas height and the top and bottom
    margins.  Rounding down puts the odd pixel on the far side. *)
Theorem paste_position_is_center_offset
    (width height top right bottom left rw rh : Z) :
  paste_position width height top right bottom left rw rh =
    (Spec.center_offset width rw left right,
     Spec.center_offset height rh top bottom) /\
  2 * (Spec.center_offset width rw left right - left)
    <= width - left - right - rw
    < 2 * (Spec.center_offset width rw left right - left) + 2 /\
  2 * (Spec.center_offset height rh top bottom - top)
    <= height - top - bottom - rh
    < 2 * (Spec.center_offset height rh top bottom - top) + 2.
Proof.
  unfold paste_position, Spec.center_offset. split; [reflexivity|].
  pose proof (Z.div_mod (width - left - right - rw) 2 ltac:(lia)) as Hx.
  pose proof (Z.mod_pos_bound (width - left - right - rw) 2 ltac:(lia)) as Hxm.
  pose proof (Z.div_mod (height - top - bottom - rh) 2 ltac:(lia)) as Hy.
  pose proof (Z.mod_pos_bound (height - top - bottom - rh) 2 ltac:(lia)) as Hym.
  lia.
Qed.

(** The gap before the logo is never larger than the gap after it, and
    smaller by one pixel at most. *)
Lemma center_offset_gaps (canvas_dim content_dim margin_near margin_far : Z) :
  let offset := Spec.center_offset canvas_dim content_dim margin_near margin_far in
  let near_gap := offset - margin_near in
  let far_gap := canvas_dim - margin_far - (offset + content_dim) in
  near_gap <= far_gap <= near_gap + 1.
Proof.
  unfold Spec.center_offset. simpl.
  pose proof (Z.div_mod (canvas_dim - margin_near - margin_far - content_dim) 2
                ltac:(lia)) as Hd.
  pose proof (Z.mod_pos_bound (canvas_dim - margin_near - margin_far - content_dim) 2
                ltac:(lia)) as Hm.
  lia.
Qed.

(** Where [process] pastes: whenever it returns an image, the logo, recoloured
    or not, went onto the canvas at the two offsets. *)
Lemma process_paste_position `{Imaging} (a : args) (image : raster rgba)
    (final : PIL.image) :
  process a image = Ok final ->
  exists bb m_top m_right m_bottom m_left resized rw rh logo ink composite,
    bounding_box image = Ok bb /\
    unpack_margin (margin a) = Ok (m_top, m_right, m_bottom, m_left) /\
    resize_to_fit_bounding_box (crop image bb) (width a - m_left - m_right)
      (height a - m_top - m_bottom) = Ok (resized, rw, rh) /\
    (logo = resized \/ exists l, color a = VList l /\ recolor l resized = Ok logo) /\
    alpha_composite (new (width a, height a) ink)
      (paste (new (width a, height a) (RGBA 128 128 128 0)) logo
         (Spec.center_offset (width a) rw m_left m_right,
          Spec.center_offset (height a) rh m_top m_bottom) logo) = Ok composite /\
    final = if greyscale a then ImageLA (convert_LA composite)
            else ImageRGBA composite.
Proof.
  unfold process. intros Hp.
  apply bind_ok in Hp as (bb & Hbb & Hp).
  apply bind_ok in Hp as ([[[m_top m_right] m_bottom] m_left] & Hm & Hp).
  apply bind_ok in Hp as ([[resized rw] rh] & Hr & Hp).
  apply bind_ok in Hp as (probe & _ & Hp).
  apply bind_ok in Hp as (ink & _ & Hp).
  apply bind_ok in Hp as (logo & Hlogo & Hp).
  apply bind_ok in Hp as (composite & Hc & Hp).
  injection Hp as <-.
  exists bb, m_top, m_right, m_bottom, m_left, resized, rw, rh, logo, ink, composite.
  repeat split; try assumption.
  destruct (truthy (color a)).
  - destruct (color a) as [| | |l]; try discriminate Hlogo.
    right. exists l. auto.
  - left. congruence.
Qed.

(** ** The recolouring step *)

Lemma nth_map_const {A : Type} (c : Z) (l : list A) (n : nat) :
  (n < List.length l)%nat -> nth n (List.map (fun _ => c) l) 0 = c.
Proof.
  revert n. induction l as [|x l IH]; intros n Hn; simpl in *; [lia|].
  destruct n as [|n]; [reflexivity|]. apply IH. lia.
Qed.

(** Looking a byte up in the table of a constant function gives the
    constant. *)
Lemma lookup_table_const (c v : Z) :
  byte_value v = true -> nth (Z.to_nat v) (lookup_table (fun _ => c)) 0 = c.
Proof.
  unfold byte_value, lookup_table. intros H.
  apply andb_true_iff in H as [H0 H255].
  apply Z.leb_le in H0. apply Z.leb_le in H255.
  apply nth_map_const. rewrite length_seq. lia.
Qed.

Lemma zip_with_map {A B C D : Type} (f : B -> C -> D) (g : A -> B) (h : A -> C)
    (l : list A) :
  zip_with f (List.map g l) (List.map h l) = List.map (fun x => f (g x) (h x)) l.
Proof. induction l as [|x l IH]; simpl; [reflexivity|]. f_equal. exact IH. Qed.

Lemma map_ext_Forall {A B : Type} (f g : A -> B) (l : list A) :
  Forall (fun x => f x = g x) l -> List.map f l = List.map g l.
Proof. induction 1 as [|x l Hx _ IH]; simpl; [reflexivity|]. congruence. Qed.

Lemma pixel_at_map_pixels {P Q : Type} (f : P -> Q) (im : raster P) (x y : Z) :
  pixel_at (map_pixels f im) x y = option_map f (pixel_at im x y).
Proof.
  unfold pixel_at, map_pixels. simpl.
  destruct ((0 <=? x) && (x <? xsize im) && (0 <=? y) && (y <? ysize im));
    [|reflexivity].
  rewrite nth_error_map.
  destruct (nth_error (rows im) (Z.to_nat y)) as [row|]; simpl; [|reflexivity].
  rewrite nth_error_map. reflexivity.
Qed.

(** C8.  Recolouring with the override [c0, c1, c2] gives an image of the
    same size in which every pixel has the three colour channels of the
    override and the alpha it had before. *)
Theorem recolor_keeps_alpha (c0 c1 c2 : Z) (resized : raster rgba) :
  Forall (Forall (fun p => rgba_ok p = true)) (rows resized) ->
  exists recolored,
    recolor [c0; c1; c2] resized = Ok recolored /\
    xsize recolored = xsize resized /\
    ysize recolored = ysize resized /\
    forall x y,
      pixel_at recolored x y =
      option_map (fun p => RGBA c0 c1 c2 (alpha p)) (pixel_at resized x y).
Proof.
  intros Hbytes.
  exists (map_pixels (fun p => RGBA c0 c1 c2 (alpha p)) resized).
  split; [|split; [reflexivity|split; [reflexivity|]]].
  - unfold recolor, split, merge, point, same_size, map_pixels, getitem.
    cbn [nth_error Py.bind xsize ysize rows].
    rewrite !Z.eqb_refl. cbn [andb]. f_equal. f_equal.
    rewrite !List.map_map.
    rewrite !zip_with_map.
    apply map_ext_Forall.
    eapply List.Forall_impl; [|exact Hbytes].
    intros row Hrow. cbv beta.
    rewrite !List.map_map.
    rewrite !zip_with_map.
    apply map_ext_Forall.
    eapply List.Forall_impl; [|exact Hrow].
    intros p Hp. cbv beta in Hp |- *. cbn [fst snd].
    unfold rgba_ok in Hp.
    apply andb_true_iff in Hp as [Hp Ha].
    apply andb_true_iff in Hp as [Hp Hb].
    apply andb_true_iff in Hp as [Hr Hg].
    rewrite !lookup_table_const by assumption. reflexivity.
  - intros x y. apply pixel_at_map_pixels.
Qed.

Lemma recolor_keeps_alpha_witness :
  exists recolored,
    recolor [255; 171; 3]
      (Raster 2 1 [[RGBA 10 20 30 0; RGBA 40 50 60 200]]) = Ok recolored /\
    xsize recolored = 2 /\
    ysize recolored = 1 /\
    forall x y,
      pixel_at recolored x y =
      option_map (fun p => RGBA 255 171 3 (alpha p))
        (pixel_at (Raster 2 1 [[RGBA 10 20 30 0; RGBA 40 50 60 200]]) x y).
Proof.
  apply (recolor_keeps_alpha 255 171 3
           (Raster 2 1 [[RGBA 10 20 30 0; RGBA 40 50 60 200]])).
  repeat constructor.
Defined.

(** ** The colour options *)

(** Two hexadecimal digits read in base 16, in either case. *)
Lemma int_two_hex_digits (c1 c2 : ascii) :
  is_hex_digit c1 = true -> is_hex_digit c2 = true ->
  Str.int (String c1 (String c2 EmptyString)) 16
    = Ok (16 * Spec.hex_value c1 + Spec.hex_value c2) /\
  byte_value (16 * Spec.hex_value c1 + Spec.hex_value c2) = true /\
  Spec.hex_value (Spec.lower_char c1) = Spec.hex_value c1 /\
  is_hex_digit (Spec.lower_char c1) = true.
Proof.
  intros H1 H2.
  destruct c1 as [[] [] [] [] [] [] [] []];
    try (vm_compute in H1; discriminate H1);
    destruct c2 as [[] [] [] [] [] [] [] []];
    try (vm_compute in H2; discriminate H2);
    vm_compute; repeat split; reflexivity.
Qed.

Lemma six_hex_digits_chars (s : string) :
  Spec.six_hex_digits s = true ->
  exists c1 c2 c3 c4 c5 c6,
    s = String c1 (String c2 (String c3 (String c4 (String c5 (String c6
          EmptyString))))) /\
    is_hex_digit c1 = true /\ is_hex_digit c2 = true /\ is_hex_digit c3 = true /\
    is_hex_digit c4 = true /\ is_hex_digit c5 = true /\ is_hex_digit c6 = true.
Proof.
  unfold Spec.six_hex_digits. intros H.
  apply andb_true_iff in H as [Hlen Hall]. apply Nat.eqb_eq in Hlen.
  destruct s as [|c1 [|c2 [|c3 [|c4 [|c5 [|c6 [|c7 s]]]]]]]; try discriminate.
  simpl in Hall.
  repeat (apply andb_true_iff in Hall as [? Hall]).
  exists c1, c2, c3, c4, c5, c6. auto 10.
Qed.

(** [hex2rgb] on six hexadecimal digits: three channels, a byte each, read
    two digits at a time. *)
Lemma hex2rgb_six_hex_digits (c1 c2 c3 c4 c5 c6 : ascii) :
  is_hex_digit c1 = true -> is_hex_digit c2 = true -> is_hex_digit c3 = true ->
  is_hex_digit c4 = true -> is_hex_digit c5 = true -> is_hex_digit c6 = true ->
  hex2rgb (String c1 (String c2 (String c3 (String c4 (String c5 (String c6
             EmptyString))))))
  = Ok [16 * Spec.hex_value c1 + Spec.hex_value c2;
        16 * Spec.hex_value c3 + Spec.hex_value c4;
        16 * Spec.hex_value c5 + Spec.hex_value c6].
Proof.
  intros H1 H2 H3 H4 H5 H6.
  unfold hex2rgb, Str.len, Str.slice.
  cbn [String.length Z.of_nat Z.eqb Pos.of_succ_nat Pos.succ Pos.eqb assert
       Py.bind mapM substring].
  destruct (int_two_hex_digits c1 c2 H1 H2) as (-> & _).
  destruct (int_two_hex_digits c3 c4 H3 H4) as (-> & _).
  destruct (int_two_hex_digits c5 c6 H5 H6) as (-> & _).
  reflexivity.
Qed.


Lemma is_hex_inv (s : string) :
  is_hex s = true ->
  Spec.six_hex_digits s = true \/ String.length s = 7%nat.
Proof.
  unfold is_hex, Spec.six_hex_digits. intros H.
  apply andb_true_iff in H as [H Htail].
  apply andb_true_iff in H as [Hlen Hall]. apply Nat.eqb_eq in Hlen.
  destruct s as [|c1 [|c2 [|c3 [|c4 [|c5 [|c6 s]]]]]]; try discriminate.
  destruct s as [|c7 [|c8 s]].
  - left. simpl in *. rewrite Hall. reflexivity.
  - right. reflexivity.
  - simpl in Htail. discriminate.
Qed.



(** An error of [parse_args] ends the run before it has done anything:
    no directory is made, no file is opened, nothing is written. *)
Lemma main_parse_error `{Imaging} (ns : namespace) (e : exn) (w : world) :
  parse_args ns = Raise e -> main ns w = (Raise e, w).
Proof. unfold main. intros ->. reflexivity. Qed.





(** The examples of the specification. *)
Lemma color_option_examples :
  color_option (Some "ffab03"%string) "" = Ok (VList [255; 171; 3]) /\
  color_option (Some "FFAB03"%string) "" = Ok (VList [255; 171; 3]) /\
  color_option (Some "zz0000"%string) "" = Raise (ArgumentTypeError "") /\
  color_option (Some "ffab0"%string) "" = Raise (ArgumentTypeError "").
Proof. repeat split; vm_compute; reflexivity. Qed.

(** ** Validation of the configuration *)

Lemma mapM_map_inv {A B C : Type} (f : A -> result B) (g : B -> C) (l : list A)
    (ns : list C) :
  mapM (fun x => Py.bind (f x) (fun v => Ok (g v))) l = Ok ns ->
  exists vs, mapM f l = Ok vs /\ ns = List.map g vs.
Proof.
  revert ns. induction l as [|x l IH]; intros ns; simpl.
  - intros [= <-]. exists []. auto.
  - destruct (f x) as [y|e]; [|discriminate]. simpl.
    destruct (mapM (fun x0 => Py.bind (f x0) (fun v => Ok (g v))) l) as [ys|e];
      [|discriminate].
    intros [= <-]. destruct (IH ys eq_refl) as (vs & -> & ->).
    exists (y :: vs). auto.
Qed.

(** Whatever it is given, [parse_margin] returns four integers, none
    negative, or raises. *)
Lemma parse_margin_ints (s : string) (m : list value) :
  parse_margin s = Ok m ->
  exists top right bottom left,
    m = [VInt top; VInt right; VInt bottom; VInt left] /\
    0 <= top /\ 0 <= right /\ 0 <= bottom /\ 0 <= left.
Proof.
  unfold parse_margin. intros H.
  apply bind_ok in H as (ns & Hns & H).
  apply mapM_map_inv in Hns as (vs & Hvs & ->).
  assert (Hne : vs <> []).
  { intros ->. apply mapM_length in Hvs. simpl in Hvs.
    pose proof (split_nonempty ","%char s) as Hs.
    destruct (Str.split ","%char s); [congruence|discriminate]. }
  destruct vs as [|v1 [|v2 [|v3 [|v4 rest]]]]; [congruence| | | |];
    cbn [List.map app repeat truthy] in H;
    repeat match type of H with
           | context [negb (?x =? 0)] => destruct (x =? 0); cbn [negb] in H
           end;
    injection H as <-; eexists _, _, _, _; (split; [reflexivity|]); lia.
Qed.

(** What holds of the arguments once [parse_args] has returned. *)
Lemma parse_args_ok (ns : namespace) (a : args) :
  parse_args ns = Ok a ->
  exists top right bottom left,
    width a = Z.abs (ns_width ns) /\
    height a = Z.abs (ns_height ns) /\
    parse_margin (ns_margin ns) = Ok (margin a) /\
    margin a = [VInt top; VInt right; VInt bottom; VInt left] /\
    width a > left + right /\
    height a > top + bottom /\
    0 <= top /\ 0 <= right /\ 0 <= bottom /\ 0 <= left /\
    images a = ns_images ns /\ output a = ns_output ns.
Proof.
  intros E. unfold parse_args in E.
  apply bind_ok in E as (c & _ & E).
  apply bind_ok in E as (bg & _ & E).
  cbv zeta in E.
  apply bind_ok in E as (m & Hm & E).
  destruct (parse_margin_ints _ _ Hm) as (t & r & b & l & -> & Hpos).
  cbn [getitem nth_error as_int Py.bind] in E.
  destruct (Z.abs (ns_width ns) >? r + l) eqn:Hw; [|discriminate E].
  cbn [assert Py.bind] in E.
  destruct (Z.abs (ns_height ns) >? t + b) eqn:Hh; [|discriminate E].
  cbn [assert Py.bind] in E.
  injection E as <-.
  exists t, r, b, l. cbn [width height margin images output].
  apply Z.gtb_lt in Hw. apply Z.gtb_lt in Hh.
  repeat split; try assumption; lia.
Qed.

(** C6.  Validation comes first.  Either [parse_args] raises, and the run
    ends with that error in the world it started in: no directory made, no
    file opened, nothing written.  Or the width and the height are the
    absolute values of those given, the margin is four integers, and the
    width exceeds the left and right margins together and the height the
    top and bottom ones. *)
Theorem parse_args_validates_before_any_effect `{Imaging}
    (ns : namespace) (w : world) :
  (exists e, parse_args ns = Raise e /\ main ns w = (Raise e, w)) \/
  (exists a top right bottom left,
     parse_args ns = Ok a /\
     width a = Z.abs (ns_width ns) /\
     height a = Z.abs (ns_height ns) /\
     parse_margin (ns_margin ns) = Ok (margin a) /\
     margin a = [VInt top; VInt right; VInt bottom; VInt left] /\
     width a > left + right /\
     height a > top + bottom).
Proof.
  destruct (parse_args ns) as [a|e] eqn:E.
  - right.
    destruct (parse_args_ok ns a E)
      as (t & r & b & l & Hw & Hh & Hpm & Hma & Hgw & Hgh & _).
    exists a, t, r, b, l. auto 10.
  - left. exists e. split; [reflexivity|]. apply main_parse_error. exact E.
Qed.

(** When the dimensions do not exceed the margins, the run is the
    aborted one. *)
Lemma parse_args_rejects_small_dimensions (ns : namespace)
    (top right bottom left : Z) :
  parse_margin (ns_margin ns) = Ok [VInt top; VInt right; VInt bottom; VInt left] ->
  ~ (Z.abs (ns_width ns) > left + right /\ Z.abs (ns_height ns) > top + bottom) ->
  exists e, parse_args ns = Raise e.
Proof.
  intros Hm Hsmall.
  destruct (parse_args ns) as [a|e] eqn:E; [|exists e; reflexivity].
  exfalso. apply Hsmall.
  destruct (parse_args_ok ns a E)
    as (t & r & b & l & Hw & Hh & Hpm & Hma & Hgw & Hgh & _).
  rewrite Hpm in Hm. rewrite Hma in Hm.
  injection Hm as <- <- <- <-. lia.
Qed.

(** ** The bounding box *)

Lemma fold_min_le (a : Z) (l : list Z) :
  fold_right Z.min a l <= a /\ forall x, In x l -> fold_right Z.min a l <= x.
Proof.
  induction l as [|b l [IHa IHl]]; simpl.
  - split; [lia|]. intros x [].
  - split; [lia|]. intros x [<-|Hx]; [lia|]. specialize (IHl x Hx). lia.
Qed.

Lemma fold_max_ge (a : Z) (l : list Z) :
  a <= fold_right Z.max a l /\ forall x, In x l -> x <= fold_right Z.max a l.
Proof.
  induction l as [|b l [IHa IHl]]; simpl.
  - split; [lia|]. intros x [].
  - split; [lia|]. intros x [<-|Hx]; [lia|]. specialize (IHl x Hx). lia.
Qed.

Lemma fold_min_attained (a : Z) (l : list Z) :
  fold_right Z.min a l = a \/ In (fold_right Z.min a l) l.
Proof.
  induction l as [|b l IH]; simpl; [left; reflexivity|].
  destruct (Z.min_spec b (fold_right Z.min a l)) as [[_ ->]|[_ ->]].
  - right. left. reflexivity.
  - destruct IH as [->|IH]; [left; reflexivity|right; right; exact IH].
Qed.

Lemma fold_max_attained (a : Z) (l : list Z) :
  fold_right Z.max a l = a \/ In (fold_right Z.max a l) l.
Proof.
  induction l as [|b l IH]; simpl; [left; reflexivity|].
  destruct (Z.max_spec b (fold_right Z.max a l)) as [[_ ->]|[_ ->]].
  - destruct IH as [->|IH]; [left; reflexivity|right; right; exact IH].
  - right. left. reflexivity.
Qed.

(** The extent of a list of points contains them all and touches one of
    them on each of its four sides. *)
Lemma extent_spec (pts : list (Z * Z)) (x0 y0 x1 y1 : Z) :
  extent pts = Some (x0, y0, x1, y1) ->
  (forall x y, In (x, y) pts -> x0 <= x < x1 /\ y0 <= y < y1) /\
  (exists y, In (x0, y) pts) /\ (exists y, In (x1 - 1, y) pts) /\
  (exists x, In (x, y0) pts) /\ (exists x, In (x, y1 - 1) pts).
Proof.
  destruct pts as [|[xa ya] pts]; simpl; [discriminate|].
  intros [= <- <- <- <-].
  pose proof (fold_min_le xa (List.map fst pts)) as [Hxa Hxl].
  pose proof (fold_min_le ya (List.map snd pts)) as [Hya Hyl].
  pose proof (fold_max_ge xa (List.map fst pts)) as [Gxa Gxl].
  pose proof (fold_max_ge ya (List.map snd pts)) as [Gya Gyl].
  split; [|repeat split].
  - intros x y [[= <- <-]|Hin]; [lia|].
    pose proof (Hxl x (in_map fst _ _ Hin)).
    pose proof (Hyl y (in_map snd _ _ Hin)).
    pose proof (Gxl x (in_map fst _ _ Hin)).
    pose proof (Gyl y (in_map snd _ _ Hin)).
    simpl in *. lia.
  - destruct (fold_min_attained xa (List.map fst pts)) as [->|Hin].
    + exists ya. left. reflexivity.
    + apply in_map_iff in Hin as ([x y] & Hx & Hin). simpl in Hx.
      exists y. right. rewrite <- Hx. exact Hin.
  - replace (fold_right Z.max xa (List.map fst pts) + 1 - 1)
      with (fold_right Z.max xa (List.map fst pts)) by lia.
    destruct (fold_max_attained xa (List.map fst pts)) as [->|Hin].
    + exists ya. left. reflexivity.
    + apply in_map_iff in Hin as ([x y] & Hx & Hin). simpl in Hx.
      exists y. right. rewrite <- Hx. exact Hin.
  - destruct (fold_min_attained ya (List.map snd pts)) as [->|Hin].
    + exists xa. left. reflexivity.
    + apply in_map_iff in Hin as ([x y] & Hy & Hin). simpl in Hy.
      exists x. right. rewrite <- Hy. exact Hin.
  - replace (fold_right Z.max ya (List.map snd pts) + 1 - 1)
      with (fold_right Z.max ya (List.map snd pts)) by lia.
    destruct (fold_max_attained ya (List.map snd pts)) as [->|Hin].
    + exists xa. left. reflexivity.
    + apply in_map_iff in Hin as ([x y] & Hy & Hin). simpl in Hy.
      exists x. right. rewrite <- Hy. exact Hin.
Qed.

(** The columns listed for a row are those of its content pixels. *)
Lemma content_columns_In {P : Type} (content : P -> bool) (row : list P) (x0 x : Z) :
  In x (content_columns content x0 row) <->
  exists p, x0 <= x /\ nth_error row (Z.to_nat (x - x0)) = Some p /\ content p = true.
Proof.
  revert x0. induction row as [|q row IH]; intros x0; simpl.
  - split; [intros []|]. intros (p & _ & Hn & _).
    destruct (Z.to_nat (x - x0)); discriminate.
  - assert (Hrest : In x (content_columns content (x0 + 1) row) <->
                    exists p, x0 < x /\
                      nth_error (q :: row) (Z.to_nat (x - x0)) = Some p /\
                      content p = true).
    { rewrite IH. split; intros (p & Hx & Hn & Hc); exists p.
      - split; [lia|]. split; [|exact Hc].
        replace (Z.to_nat (x - x0)) with (S (Z.to_nat (x - (x0 + 1)))) by lia.
        exact Hn.
      - split; [lia|]. split; [|exact Hc].
        replace (Z.to_nat (x - x0)) with (S (Z.to_nat (x - (x0 + 1)))) in Hn by lia.
        exact Hn. }
    assert (Hhere : forall p, x0 = x ->
                      (nth_error (q :: row) (Z.to_nat (x - x0)) = Some p <-> p = q)).
    { intros p <-. replace (Z.to_nat (x0 - x0)) with 0%nat by lia. simpl.
      split; [intros [= ->]; reflexivity|intros ->; reflexivity]. }
    destruct (content q) eqn:Hq.
    + simpl. rewrite Hrest. split.
      * intros [<-|(p & Hx & Hn & Hc)].
        -- exists q. split; [lia|]. split; [apply Hhere; reflexivity|exact Hq].
        -- exists p. split; [lia|]. auto.
      * intros (p & Hx & Hn & Hc).
        destruct (Z.eq_dec x0 x) as [Heq|Hne]; [left; exact Heq|].
        right. exists p. split; [lia|]. auto.
    + rewrite Hrest. split.
      * intros (p & Hx & Hn & Hc). exists p. split; [lia|]. auto.
      * intros (p & Hx & Hn & Hc).
        destruct (Z.eq_dec x0 x) as [Heq|Hne].
        -- apply (Hhere p Heq) in Hn. subst p. congruence.
        -- exists p. split; [lia|]. auto.
Qed.

(** The points listed for the rows are the coordinates of the content
    pixels. *)
Lemma content_points_In {P : Type} (content : P -> bool) (rs : list (list P))
    (y0 x y : Z) :
  In (x, y) (content_points content y0 rs) <->
  exists row p,
    y0 <= y /\ nth_error rs (Z.to_nat (y - y0)) = Some row /\
    0 <= x /\ nth_error row (Z.to_nat x) = Some p /\ content p = true.
Proof.
  revert y0. induction rs as [|r rs IH]; intros y0; simpl.
  - split; [intros []|]. intros (row & p & _ & Hn & _).
    destruct (Z.to_nat (y - y0)); discriminate.
  - rewrite in_app_iff, in_map_iff, IH. split.
    + intros [(x' & [= <- <-] & Hin)|(row & p & Hy & Hn & Hx & Hp & Hc)].
      * apply content_columns_In in Hin as (p & Hx & Hn & Hc).
        rewrite Z.sub_0_r in Hn.
        exists r, p. replace (Z.to_nat (y0 - y0)) with 0%nat by lia.
        repeat split; auto; lia.
      * exists row, p.
        replace (Z.to_nat (y - y0)) with (S (Z.to_nat (y - (y0 + 1)))) by lia.
        repeat split; auto; lia.
    + intros (row & p & Hy & Hn & Hx & Hp & Hc).
      destruct (Z.eq_dec y0 y) as [<-|Hne].
      * left. exists x. split; [reflexivity|].
        replace (Z.to_nat (y0 - y0)) with 0%nat in Hn by lia.
        simpl in Hn. injection Hn as <-.
        apply content_columns_In. exists p. rewrite Z.sub_0_r. auto.
      * right. exists row, p.
        replace (Z.to_nat (y - y0)) with (S (Z.to_nat (y - (y0 + 1)))) in Hn by lia.
        repeat split; auto; lia.
Qed.

Lemma pixel_at_inv {P : Type} (im : raster P) (x y : Z) (p : P) :
  pixel_at im x y = Some p ->
  0 <= x < xsize im /\ 0 <= y < ysize im /\
  exists row, nth_error (rows im) (Z.to_nat y) = Some row /\
              nth_error row (Z.to_nat x) = Some p.
Proof.
  unfold pixel_at.
  destruct ((0 <=? x) && (x <? xsize im) && (0 <=? y) && (y <? ysize im)) eqn:E;
    [|discriminate].
  apply andb_true_iff in E as [E Hy1]. apply andb_true_iff in E as [E Hy0].
  apply andb_true_iff in E as [Hx0 Hx1].
  apply Z.leb_le in Hx0, Hy0. apply Z.ltb_lt in Hx1, Hy1.
  destruct (nth_error (rows im) (Z.to_nat y)) as [row|] eqn:Hrow; [|discriminate].
  intros Hp. repeat split; try lia. exists row. auto.
Qed.

(** In a well-formed raster every position within the size holds a
    pixel. *)
Lemma pixel_at_nth_error {P : Type} (im : raster P) (x y : Z) (row : list P) (p : P) :
  well_formed im -> 0 <= x -> 0 <= y ->
  nth_error (rows im) (Z.to_nat y) = Some row ->
  nth_error row (Z.to_nat x) = Some p ->
  pixel_at im x y = Some p.
Proof.
  intros [Hh Hw] Hx Hy Hrow Hp.
  assert (Hylt : (Z.to_nat y < List.length (rows im))%nat).
  { apply nth_error_Some. congruence. }
  assert (Hxlt : (Z.to_nat x < List.length row)%nat).
  { apply nth_error_Some. congruence. }
  assert (Hlen : Z.of_nat (List.length row) = xsize im).
  { apply (proj1 (List.Forall_forall _ _) Hw row). eapply nth_error_In. exact Hrow. }
  unfold pixel_at.
  replace ((0 <=? x) && (x <? xsize im) && (0 <=? y) && (y <? ysize im)) with true.
  - rewrite Hrow. exact Hp.
  - symmetry. repeat (apply andb_true_iff; split);
      try (apply Z.leb_le; lia); apply Z.ltb_lt; lia.
Qed.

Lemma pixel_at_in_range {P : Type} (im : raster P) (x y : Z) :
  well_formed im -> 0 <= x < xsize im -> 0 <= y < ysize im ->
  exists p, pixel_at im x y = Some p.
Proof.
  intros Hwf Hx Hy. pose proof Hwf as [Hh Hw].
  destruct (nth_error (rows im) (Z.to_nat y)) as [row|] eqn:Hrow.
  - assert (Hlen : Z.of_nat (List.length row) = xsize im).
    { apply (proj1 (List.Forall_forall _ _) Hw row). eapply nth_error_In. exact Hrow. }
    destruct (nth_error row (Z.to_nat x)) as [p|] eqn:Hp.
    + exists p. apply (pixel_at_nth_error im x y row p); auto; lia.
    + apply nth_error_None in Hp. lia.
  - apply nth_error_None in Hrow. lia.
Qed.

(** [getbbox] meets its contract: the box it returns is the smallest one
    containing the content; it returns none exactly when there is no
    content. *)
Lemma getbbox_smallest {P : Type} (content : P -> bool) (im : raster P) :
  well_formed im ->
  match getbbox content im with
  | Some bx => Spec.smallest_box content im bx
  | None => forall x y p, pixel_at im x y = Some p -> content p = false
  end.
Proof.
  intros Hwf. unfold getbbox.
  assert (Hin : forall x y p, pixel_at im x y = Some p -> content p = true ->
                  In (x, y) (content_points content 0 (rows im))).
  { intros x y p Hp Hc.
    apply pixel_at_inv in Hp as (Hx & Hy & row & Hrow & Hpx).
    apply content_points_In. exists row, p. rewrite Z.sub_0_r.
    repeat split; auto; lia. }
  assert (Hout : forall x y, In (x, y) (content_points content 0 (rows im)) ->
                   exists p, pixel_at im x y = Some p /\ content p = true).
  { intros x y Hxy.
    apply content_points_In in Hxy as (row & p & Hy & Hrow & Hx & Hp & Hc).
    rewrite Z.sub_0_r in Hrow. exists p. split; [|exact Hc].
    apply (pixel_at_nth_error im x y row p); auto. }
  destruct (extent (content_points content 0 (rows im))) as [[[[x0 y0] x1] y1]|] eqn:E.
  - apply extent_spec in E
      as (Hall & (ya & Hleft) & (yb & Hright) & (xa & Htop) & (xb & Hbottom)).
    split.
    + intros x y p Hp Hc. apply Hall. eapply Hin; eauto.
    + intros [[[x0' y0'] x1'] y1'] Henc. unfold Spec.encloses in Henc.
      destruct (Hout _ _ Hleft) as (p1 & Hp1 & Hc1).
      destruct (Hout _ _ Hright) as (p2 & Hp2 & Hc2).
      destruct (Hout _ _ Htop) as (p3 & Hp3 & Hc3).
      destruct (Hout _ _ Hbottom) as (p4 & Hp4 & Hc4).
      pose proof (Henc _ _ _ Hp1 Hc1). pose proof (Henc _ _ _ Hp2 Hc2).
      pose proof (Henc _ _ _ Hp3 Hc3). pose proof (Henc _ _ _ Hp4 Hc4).
      lia.
  - intros x y p Hp. destruct (content p) eqn:Hc; [|reflexivity].
    pose proof (Hin x y p Hp Hc) as Hxy.
    destruct (content_points content 0 (rows im)) as [|[xa ya] pts];
      [destruct Hxy|discriminate E].
Qed.

(** With a transparent probe pixel the bounding box is [getbbox] of the
    image. *)
Lemma bounding_box_transparent (image : raster rgba) (probe : rgba) :
  getpixel image 3 3 = Ok probe -> alpha probe = 0 ->
  bounding_box image = Ok (getbbox opaque image).
Proof.
  intros Hprobe Halpha. unfold bounding_box. rewrite Hprobe. cbn [Py.bind].
  rewrite Halpha. reflexivity.
Qed.

Lemma opaque_alpha (p : rgba) : opaque p = true <-> alpha p <> 0.
Proof.
  unfold opaque. destruct (Z.eqb_spec (alpha p) 0); simpl; split; intros; congruence.
Qed.

(** C4.  For a decoded image whose pixel at (3, 3) has alpha 0, the
    bounding box is the smallest box containing every pixel of non-zero
    alpha, and there is none exactly when every pixel is transparent.  In
    particular, when the pixels of non-zero alpha are those of the columns
    and rows 10 to 29, which the box (10, 10, 30, 30) denotes, the
    bounding box is (10, 10, 30, 30). *)
Theorem bounding_box_of_transparent_probe (image : raster rgba) (probe : rgba) :
  well_formed image ->
  getpixel image 3 3 = Ok probe ->
  alpha probe = 0 ->
  match bounding_box image with
  | Ok (Some bx) => Spec.smallest_box opaque image bx
  | Ok None => forall x y p, pixel_at image x y = Some p -> alpha p = 0
  | Raise _ => False
  end /\
  (30 <= xsize image -> 30 <= ysize image ->
   (forall x y p, pixel_at image x y = Some p ->
      (alpha p <> 0 <-> 10 <= x < 30 /\ 10 <= y < 30)) ->
   bounding_box image = Ok (Some (10, 10, 30, 30))).
Proof.
  intros Hwf Hprobe Halpha.
  rewrite (bounding_box_transparent image probe Hprobe Halpha).
  pose proof (getbbox_smallest opaque image Hwf) as Hbox.
  split.
  - destruct (getbbox opaque image) as [bx|]; [exact Hbox|].
    intros x y p Hp. specialize (Hbox x y p Hp).
    unfold opaque in Hbox. destruct (Z.eqb_spec (alpha p) 0); [assumption|discriminate].
  - intros Hxs Hys Hregion.
    destruct (pixel_at_in_range image 10 10 Hwf ltac:(lia) ltac:(lia)) as [pa Hpa].
    destruct (pixel_at_in_range image 29 29 Hwf ltac:(lia) ltac:(lia)) as [pb Hpb].
    assert (Hca : opaque pa = true).
    { apply opaque_alpha. apply (Hregion 10 10 pa Hpa). lia. }
    assert (Hcb : opaque pb = true).
    { apply opaque_alpha. apply (Hregion 29 29 pb Hpb). lia. }
    destruct (getbbox opaque image) as [[[[x0 y0] x1] y1]|].
    + destruct Hbox as [Henc Hmin].
      pose proof (Henc 10 10 pa Hpa Hca) as Ha.
      pose proof (Henc 29 29 pb Hpb Hcb) as Hb.
      specialize (Hmin (10, 10, 30, 30)). simpl in Hmin.
      assert (Hfit : Spec.encloses opaque image (10, 10, 30, 30)).
      { intros x y p Hp Hc. apply (Hregion x y p Hp). apply opaque_alpha. exact Hc. }
      specialize (Hmin Hfit).
      repeat f_equal; lia.
    + rewrite (Hbox 10 10 pa Hpa) in Hca. discriminate.
Qed.

Lemma tabulate_well_formed {P : Type} (w h : Z) (f : Z -> Z -> P) :
  0 <= w -> 0 <= h -> well_formed (Reference.tabulate w h f).
Proof.
  intros Hw Hh. unfold well_formed, Reference.tabulate. cbn [rows xsize ysize].
  split.
  - rewrite length_map, length_seq. lia.
  - apply List.Forall_forall. intros row Hrow.
    apply in_map_iff in Hrow as (j & <- & _).
    rewrite length_map, length_seq. lia.
Qed.

Lemma nth_error_seq_0 (len n i : nat) : nth_error (List.seq 0 len) n = Some i -> i = n.
Proof.
  intros Hn.
  assert (Hlt : (n < List.length (List.seq 0 len))%nat).
  { apply nth_error_Some. congruence. }
  rewrite length_seq in Hlt.
  apply (nth_error_nth _ _ 0%nat) in Hn. rewrite seq_nth in Hn by exact Hlt. lia.
Qed.

Lemma tabulate_pixel_at {P : Type} (w h : Z) (f : Z -> Z -> P) (x y : Z) (p : P) :
  pixel_at (Reference.tabulate w h f) x y = Some p -> p = f x y.
Proof.
  intros Hp. apply pixel_at_inv in Hp as (Hx & Hy & row & Hrow & Hpx).
  unfold Reference.tabulate in Hrow. cbn [rows] in Hrow.
  rewrite nth_error_map in Hrow.
  destruct (nth_error (List.seq 0 (Z.to_nat h)) (Z.to_nat y)) as [j|] eqn:Hj;
    [|discriminate].
  apply nth_error_seq_0 in Hj. subst j. injection Hrow as <-.
  rewrite nth_error_map in Hpx.
  destruct (nth_error (List.seq 0 (Z.to_nat w)) (Z.to_nat x)) as [i|] eqn:Hi;
    [|discriminate].
  apply nth_error_seq_0 in Hi. subst i. injection Hpx as <-.
  rewrite !Z2Nat.id by lia. reflexivity.
Qed.

(** The example image meets the hypotheses. *)
Lemma logo_40_well_formed : well_formed Examples.logo_40.
Proof. apply tabulate_well_formed; lia. Qed.

Lemma logo_40_probe : getpixel Examples.logo_40 3 3 = Ok (RGBA 0 0 0 0).
Proof. vm_compute. reflexivity. Qed.

Lemma logo_40_size : 30 <= xsize Examples.logo_40 /\ 30 <= ysize Examples.logo_40.
Proof. unfold Examples.logo_40, Reference.tabulate. cbn [xsize ysize]. lia. Qed.

Lemma logo_40_region (x y : Z) (p : rgba) :
  pixel_at Examples.logo_40 x y = Some p ->
  (alpha p <> 0 <-> 10 <= x < 30 /\ 10 <= y < 30).
Proof.
  intros Hp. unfold Examples.logo_40 in Hp.
  apply tabulate_pixel_at in Hp. subst p. cbv beta.
  destruct ((10 <=? x) && (x <? 30) && (10 <=? y) && (y <? 30)) eqn:E;
    cbn [alpha].
  - apply andb_true_iff in E as [E Hy1]. apply andb_true_iff in E as [E Hy0].
    apply andb_true_iff in E as [Hx0 Hx1].
    apply Z.leb_le in Hx0, Hy0. apply Z.ltb_lt in Hx1, Hy1.
    split; [lia|discriminate].
  - split; [congruence|]. intros [Hx Hy]. exfalso.
    assert (E' : (10 <=? x) && (x <? 30) && (10 <=? y) && (y <? 30) = true).
    { repeat (apply andb_true_iff; split);
        try (apply Z.leb_le; lia); apply Z.ltb_lt; lia. }
    congruence.
Qed.

Lemma bounding_box_of_transparent_probe_witness :
  bounding_box Examples.logo_40 = Ok (Some (10, 10, 30, 30)).
Proof.
  pose proof (bounding_box_of_transparent_probe Examples.logo_40 (RGBA 0 0 0 0)
                logo_40_well_formed logo_40_probe) as H.
  specialize (H eq_refl). destruct H as [_ H]. apply H.
  - exact (proj1 logo_40_size).
  - exact (proj2 logo_40_size).
  - exact logo_40_region.
Defined.

(** When the region reaches column and row 30 as well, the box is one
    larger: the right and lower sides of a box lie one past its last
    pixel. *)
Lemma bounding_box_inclusive_region :
  bounding_box
    (Reference.tabulate 40 40
       (fun i j =>
          if (10 <=? i) && (i <=? 30) && (10 <=? j) && (j <=? 30)
          then RGBA 200 30 30 255 else RGBA 0 0 0 0))
  = Ok (Some (10, 10, 31, 31)).
Proof. vm_compute. reflexivity. Qed.

(** ** The loop over the input paths *)





(** X23.  The loop on a list is the loop on its front part and then,
    unless that raised, on the rest, in the world the front part left; so
    the theorem above speaks of a failing path wherever it stands in the
    list. *)
Lemma run_images_app `{Imaging} (a : args) (front rest : list string) (w : world) :
  run_images a (front ++ rest) w =
    match run_images a front w with
    | (Ok _, w') => run_images a rest w'
    | (Raise e, w') => (Raise e, w')
    end.
Proof.
  revert w. induction front as [|path front IH]; intros w; [reflexivity|].
  cbn [app run_images].
  destruct (open_image (emit (Open path) w) path) as [image|e].
  - destruct (process a image) as [final|e]; [apply IH|reflexivity].
  - destruct e; try reflexivity; apply IH.
Qed.


(** ** Runs on files that agree on the inputs *)

(** Two runs of the loop on files that agree on the input paths go the
    same way: the same outcome, the same events, the same writes. *)
Lemma run_images_lockstep `{Imaging} (a : args) (paths : list string) :
  forall (f f' : gmap string (list Byte.byte)) (ev ev' : list event),
    (forall p, In p paths -> f !! p = f' !! p) ->
    exists r new writes,
      run_images a paths (World f ev) = (r, World (write_all writes f) (new ++ ev)) /\
      run_images a paths (World f' ev') = (r, World (write_all writes f') (new ++ ev')) /\
      Forall (fun kv => exists q, In q paths /\ fst kv = output_path (output a) q)
        writes.
Proof.
  induction paths as [|path rest IH]; intros f f' ev ev' Hagree.
  { exists (Ok tt), [], []. repeat split. constructor. }
  assert (Hrest : forall (g g' : gmap string (list Byte.byte)) front pre,
            (forall p, In p rest -> g !! p = g' !! p) ->
            Forall (fun kv => exists q, In q (path :: rest) /\
                              fst kv = output_path (output a) q) pre ->
            exists r new writes,
              run_images a rest (World g (front ++ ev))
                = (r, World (write_all writes g) (new ++ ev)) /\
              run_images a rest (World g' (front ++ ev'))
                = (r, World (write_all writes g') (new ++ ev')) /\
              Forall (fun kv => exists q, In q (path :: rest) /\
                                fst kv = output_path (output a) q)
                (pre ++ writes)).
  { intros g g' front pre Hg Hpre.
    destruct (IH g g' (front ++ ev) (front ++ ev') Hg)
      as (r & new & writes & H1 & H2 & Hw).
    exists r, (new ++ front), writes. rewrite <- !app_assoc.
    split; [exact H1|]. split; [exact H2|].
    apply Forall_app. split; [exact Hpre|].
    eapply List.Forall_impl; [|exact Hw].
    intros kv (q & Hq & Hkv). exists q. split; [right; exact Hq|exact Hkv]. }
  assert (Hrest_agree : forall p, In p rest -> f !! p = f' !! p).
  { intros p Hp. apply Hagree. right. exact Hp. }
  assert (Hskip : forall msg,
            exists r new writes,
              run_images a rest (World f (LogWarning msg :: Open path :: ev))
                = (r, World (write_all writes f) (new ++ ev)) /\
              run_images a rest (World f' (LogWarning msg :: Open path :: ev'))
                = (r, World (write_all writes f') (new ++ ev')) /\
              Forall (fun kv => exists q, In q (path :: rest) /\
                                fst kv = output_path (output a) q) writes).
  { intros msg.
    exact (Hrest f f' [LogWarning msg; Open path] [] Hrest_agree (List.Forall_nil _)). }
  assert (Hstop : forall e front,
            exists (r : result unit) new (writes : list (string * list Byte.byte)),
              (Raise e, World f (front ++ ev))
                = (r, World (write_all writes f) (new ++ ev)) /\
              (Raise e, World f' (front ++ ev'))
                = (r, World (write_all writes f') (new ++ ev')) /\
              Forall (fun kv => exists q, In q (path :: rest) /\
                                fst kv = output_path (output a) q) writes).
  { intros e front. exists (Raise e), front, []. repeat split. constructor. }
  cbn [run_images]. unfold emit, open_image, save. cbn [files events].
  rewrite <- (Hagree path (or_introl eq_refl)).
  destruct (f !! path) as [content|]; [|apply Hskip].
  destruct (decode content) as [image|e].
  - set (info := LogInfo (" Image `" ++ path ++ "` correctly opened")).
    destruct (process a image) as [final|e].
    + set (out := output_path (output a) path).
      set (c := encode_png final).
      assert (Hins : forall p, In p rest ->
                       (<[out := c]> f) !! p = (<[out := c]> f') !! p).
      { intros p Hp. destruct (decide (out = p)) as [->|Hne].
        - rewrite !lookup_insert_eq. reflexivity.
        - rewrite !lookup_insert_ne by exact Hne. apply Hrest_agree. exact Hp. }
      assert (Hpre : Forall (fun kv => exists q, In q (path :: rest) /\
                                       fst kv = output_path (output a) q)
                       [(out, c)]).
      { repeat constructor. exists path. split; [left|]; reflexivity. }
      destruct (verbose a); cbn [files events].
      * destruct (Hrest _ _ [Save out c; info; Open path] _ Hins Hpre)
          as (r & new & writes & H1 & H2 & Hw).
        exists r, new, ((out, c) :: writes). auto.
      * destruct (Hrest _ _ [Save out c; Open path] _ Hins Hpre)
          as (r & new & writes & H1 & H2 & Hw).
        exists r, new, ((out, c) :: writes). auto.
    + destruct (verbose a); cbn [files events].
      * apply (Hstop e [info; Open path]).
      * apply (Hstop e [Open path]).
  - destruct e; try apply (Hstop _ [Open path]); apply Hskip.
Qed.

(** The same for a whole run. *)
Lemma main_lockstep `{Imaging} (ns : namespace)
    (f f' : gmap string (list Byte.byte)) (ev ev' : list event) :
  (forall p, In p (ns_images ns) -> f !! p = f' !! p) ->
  exists r new writes,
    main ns (World f ev) = (r, World (write_all writes f) (new ++ ev)) /\
    main ns (World f' ev') = (r, World (write_all writes f') (new ++ ev')) /\
    Forall (fun kv => exists q, In q (ns_images ns) /\
                      fst kv = output_path (ns_output ns) q) writes.
Proof.
  intros Hagree. unfold main.
  destruct (parse_args ns) as [a|e] eqn:E.
  - destruct (parse_args_ok ns a E) as (_ & _ & _ & _ & _ & _ & _ & _ & _ & _ & _
                                        & _ & _ & _ & Himages & Houtput).
    rewrite <- Himages in Hagree. rewrite <- Himages, <- Houtput.
    unfold emit. cbn [files events].
    destruct (debug a); cbn [files events].
    + destruct (run_images_lockstep a (images a) f f'
                  (Mkdir (output a) :: PrintArgs a :: ev)
                  (Mkdir (output a) :: PrintArgs a :: ev') Hagree)
        as (r & new & writes & H1 & H2 & Hw).
      exists r, (new ++ [Mkdir (output a); PrintArgs a]), writes.
      rewrite <- !app_assoc. auto.
    + destruct (run_images_lockstep a (images a) f f'
                  (Mkdir (output a) :: ev) (Mkdir (output a) :: ev') Hagree)
        as (r & new & writes & H1 & H2 & Hw).
      exists r, (new ++ [Mkdir (output a)]), writes.
      rewrite <- !app_assoc. auto.
  - exists (Raise e), [], []. repeat split. constructor.
Qed.

(** The run of the example: the image is processed and saved, the two
    other paths are skipped with a warning each, and the run succeeds. *)
Lemma examples_run :
  fst (@main Reference.imaging Examples.ns (World Examples.disk [])) = Ok tt /\
  List.map (fun e => match e with
                     | Save path _ => ("save " ++ path)%string
                     | LogWarning msg => msg
                     | Open path => ("open " ++ path)%string
                     | Mkdir path => ("mkdir " ++ path)%string
                     | LogInfo msg => msg
                     | PrintArgs _ => "print"%string
                     end)
    (rev (events (snd (@main Reference.imaging Examples.ns (World Examples.disk [])))))
  = ["mkdir cropped"; "open a/logo.raw"; "save ./cropped/logo.png";
     "open missing.png"; " File `missing.png` not found";
     "open junk.txt"; " File `junk.txt` can't be opened"]%string /\
  parse_args Examples.ns = Ok Examples.parsed.
Proof. repeat split; vm_compute; reflexivity. Qed.


(* ===================================================================== *)
(** * Part III.  Further properties of the program                       *)
(* ===================================================================== *)

(** ** [parse_margin], in full *)

Lemma int_raises_ValueError (s : string) (base : Z) (e : exn) :
  Str.int s base = Raise e -> e = ValueError.
Proof.
  unfold Str.int, Str.int_of_chars.
  destruct (match Str.lstrip (list_ascii_of_string s) with
            | "+"%char :: r => (false, r)
            | "-"%char :: r => (true, r)
            | _ => (false, Str.lstrip (list_ascii_of_string s))
            end) as [negative s2].
  destruct (Str.skip_prefix base s2) as [|c s3].
  - destruct (Str.scan_digits base 0 0 false []) as [[[v [|n]] rest]|];
      try (intros [= <-]; reflexivity).
    destruct (Str.lstrip rest); [discriminate|intros [= <-]; reflexivity].
  - destruct (Ascii.eqb_spec c "_"%char) as [->|Hc].
    + intros [= <-]. reflexivity.
    + assert (Hgen : match Str.scan_digits base 0 0 false (c :: s3) with
                     | Some (v, S _, rest) =>
                         match Str.lstrip rest with
                         | [] => Ok (if negative then - v else v)
                         | _ :: _ => Raise ValueError
                         end
                     | _ => Raise ValueError
                     end = Raise e -> e = ValueError).
      { destruct (Str.scan_digits base 0 0 false (c :: s3)) as [[[v [|n]] rest]|];
          try (intros [= <-]; reflexivity).
        destruct (Str.lstrip rest); [discriminate|intros [= <-]; reflexivity]. }
      destruct c as [[] [] [] [] [] [] [] []]; try exact Hgen; congruence.
Qed.

Lemma mapM_raise {A B : Type} (f : A -> result B) (P : exn -> Prop) (l : list A)
    (e : exn) :
  (forall x e', f x = Raise e' -> P e') -> mapM f l = Raise e -> P e.
Proof.
  intros Hf. induction l as [|x l IH]; simpl; [discriminate|].
  destruct (f x) as [y|e'] eqn:Hx.
  - destruct (mapM f l) as [ys|e'']; [discriminate|].
    intros [= <-]. apply IH. reflexivity.
  - intros [= <-]. eapply Hf. exact Hx.
Qed.

Lemma mapM_map_raise {A B C : Type} (f : A -> result B) (g : B -> C) (l : list A)
    (e : exn) :
  mapM f l = Raise e ->
  mapM (fun x => Py.bind (f x) (fun v => Ok (g v))) l = Raise e.
Proof.
  induction l as [|x l IH]; simpl; [discriminate|].
  destruct (f x) as [y|e']; simpl.
  - destruct (mapM f l) as [ys|e'']; [discriminate|].
    intros [= <-]. rewrite IH by reflexivity. reflexivity.
  - intros [= <-]. reflexivity.
Qed.

(** X1.  [parse_margin] has two outcomes.  When every comma-separated
    field is an integer literal it returns four integers, none negative.
    Otherwise it raises [ValueError], and nothing else: the truth tests and
    the unpacking never fail. *)
Theorem parse_margin_outcomes (s : string) :
  (exists vs top right bottom left,
     Spec.margin_integers s = Ok vs /\
     parse_margin s = Ok [VInt top; VInt right; VInt bottom; VInt left] /\
     0 <= top /\ 0 <= right /\ 0 <= bottom /\ 0 <= left) \/
  (Spec.margin_integers s = Raise ValueError /\ parse_margin s = Raise ValueError).
Proof.
  destruct (Spec.margin_integers s) as [vs|e] eqn:E.
  - left. pose proof (parse_margin_values s vs E) as Hv.
    destruct (parse_margin s) as [m|e] eqn:Hm.
    + destruct (parse_margin_ints s m Hm) as (t & r & b & l & -> & Hpos).
      exists vs, t, r, b, l. auto.
    + exfalso.
      destruct (List.map (fun v => VInt (Z.abs v)) vs ++ repeat VNone 4)
        as [|a [|b [|c [|d rest]]]] eqn:El.
      * destruct vs; discriminate El.
      * destruct vs as [|? [|? ?]]; discriminate El.
      * destruct vs as [|? [|? [|? ?]]]; discriminate El.
      * destruct vs as [|? [|? [|? [|? ?]]]]; discriminate El.
      * destruct (truthy d); [discriminate|].
        destruct (truthy c); [discriminate|].
        destruct (truthy b); [discriminate|].
        destruct (truthy a); discriminate.
  - right.
    assert (e = ValueError).
    { unfold Spec.margin_integers in E.
      refine (mapM_raise _ (fun e0 => e0 = ValueError) _ e _ E).
      intros x e'. apply int_raises_ValueError. }
    subst e. split; [reflexivity|].
    unfold parse_margin. unfold Spec.margin_integers in E.
    rewrite (mapM_map_raise _ (fun v => VInt (Z.abs v)) _ _ E). reflexivity.
Qed.

(** X2.  What [parse_margin] returns, whatever the values: of the first
    four values, sign-normalized, those that remain once the zeros at the
    end are dropped are broadcast.  So ["1,2,3,0"] is read as ["1,2,3"],
    ["5,0"] as ["5"], and values that are all zero give four zeros. *)
Theorem parse_margin_drops_trailing_zeros (s : string) (vs : list Z) :
  Spec.margin_integers s = Ok vs ->
  parse_margin s =
    Ok (List.map VInt
          (Spec.broadcast
             (Behaviour.drop_trailing_zeros (firstn 4 (List.map Z.abs vs))))).
Proof.
  intros H. rewrite (parse_margin_values s vs H).
  destruct vs as [|v1 [|v2 [|v3 [|v4 rest]]]];
    cbn [List.map app repeat firstn truthy Behaviour.drop_trailing_zeros];
    repeat match goal with
           | |- context [Z.abs ?v =? 0] => destruct (Z.abs v =? 0) eqn:?
           end;
    cbn [negb]; try reflexivity;
    repeat match goal with
           | E : (Z.abs ?v =? 0) = true |- _ => apply Z.eqb_eq in E; rewrite E
           end; reflexivity.
Qed.

Lemma parse_margin_drops_trailing_zeros_witness :
  parse_margin "1,-2,0,0,7" =
    Ok (List.map VInt
          (Spec.broadcast
             (Behaviour.drop_trailing_zeros
                (firstn 4 (List.map Z.abs [1; -2; 0; 0; 7]))))).
Proof.
  apply (parse_margin_drops_trailing_zeros "1,-2,0,0,7" [1; -2; 0; 0; 7]).
  reflexivity.
Defined.


(** ** The colour options, in full *)

Lemma hex2rgb_is_hex_cases (s : string) :
  is_hex s = true ->
  (String.length s = 6%nat /\
   exists r g b, hex2rgb s = Ok [r; g; b] /\
     byte_value r = true /\ byte_value g = true /\ byte_value b = true) \/
  (String.length s = 7%nat /\ hex2rgb s = Raise (AssertionError "")).
Proof.
  intros H. destruct (is_hex_inv s H) as [Hsix|Hlen].
  - left.
    destruct (six_hex_digits_chars s Hsix)
      as (c1 & c2 & c3 & c4 & c5 & c6 & -> & H1 & H2 & H3 & H4 & H5 & H6).
    split; [reflexivity|].
    rewrite hex2rgb_six_hex_digits by assumption.
    pose proof (int_two_hex_digits c1 c2 H1 H2) as (_ & B1 & _).
    pose proof (int_two_hex_digits c3 c4 H3 H4) as (_ & B2 & _).
    pose proof (int_two_hex_digits c5 c6 H5 H6) as (_ & B3 & _).
    eexists _, _, _. split; [reflexivity|]. auto.
  - right. split; [exact Hlen|]. unfold hex2rgb, Str.len. rewrite Hlen. reflexivity.
Qed.

(** X4.  On a string that [is_hex] accepts, [hex2rgb] never fails on a
    digit: it returns three channels of one byte each, or, for the
    seven-character string that ends in a line feed, its length assertion
    fails. *)
Theorem hex2rgb_after_is_hex (s : string) :
  is_hex s = true ->
  (String.length s = 6%nat /\
   exists r g b, hex2rgb s = Ok [r; g; b] /\
     byte_value r = true /\ byte_value g = true /\ byte_value b = true) \/
  (String.length s = 7%nat /\ hex2rgb s = Raise (AssertionError "")).
Proof. exact (hex2rgb_is_hex_cases s). Qed.

Lemma hex2rgb_after_is_hex_witness :
  (String.length "ffab03" = 6%nat /\
   exists r g b, hex2rgb "ffab03" = Ok [r; g; b] /\
     byte_value r = true /\ byte_value g = true /\ byte_value b = true) \/
  (String.length "ffab03" = 7%nat /\ hex2rgb "ffab03" = Raise (AssertionError "")).
Proof. apply (hex2rgb_after_is_hex "ffab03"). reflexivity. Defined.

(** What a colour option is once it has been checked. *)
Lemma color_option_ok (given : option string) (msg : string) (v : value) :
  color_option given msg = Ok v ->
  v = VNone \/ v = VStr "" \/
  (exists r g b, v = VList [r; g; b] /\
     byte_value r = true /\ byte_value g = true /\ byte_value b = true).
Proof.
  unfold color_option. destruct given as [s|]; [|intros [= <-]; auto].
  destruct (truthy (VStr s)) eqn:Ht.
  - destruct (is_hex s) eqn:Hhex; [|discriminate].
    destruct (hex2rgb_is_hex_cases s Hhex)
      as [(_ & r & g & b & -> & Hr & Hg & Hb)|(_ & ->)]; [|discriminate].
    intros [= <-]. right. right. exists r, g, b. auto.
  - intros [= <-]. right. left. simpl in Ht.
    destruct s; [auto|discriminate].
Qed.

(** X5.  The arguments [parse_args] returns hold, for each colour option,
    [None], the empty string, or a list of exactly three bytes; so where
    [main] finds the option true and indexes it, the three channels are
    there.  The fields it does not rewrite are those of the [Namespace]. *)
Theorem parse_args_colours (ns : namespace) (a : args) :
  parse_args ns = Ok a ->
  (color a = VNone \/ color a = VStr "" \/
   exists r g b, color a = VList [r; g; b] /\
     byte_value r = true /\ byte_value g = true /\ byte_value b = true) /\
  (background a = VNone \/ background a = VStr "" \/
   exists r g b, background a = VList [r; g; b] /\
     byte_value r = true /\ byte_value g = true /\ byte_value b = true) /\
  images a = ns_images ns /\ output a = ns_output ns /\
  verbose a = ns_verbose ns /\ debug a = ns_debug ns /\
  greyscale a = ns_greyscale ns.
Proof.
  intros E. unfold parse_args in E.
  apply bind_ok in E as (c & Hc & E).
  apply bind_ok in E as (bg & Hbg & E).
  cbv zeta in E.
  apply bind_ok in E as (m & Hm & E).
  apply bind_ok in E as (m1 & _ & E).
  apply bind_ok in E as (m3 & _ & E).
  apply bind_ok in E as (i1 & _ & E).
  apply bind_ok in E as (i3 & _ & E).
  apply bind_ok in E as (u1 & _ & E).
  apply bind_ok in E as (m0 & _ & E).
  apply bind_ok in E as (m2 & _ & E).
  apply bind_ok in E as (i0 & _ & E).
  apply bind_ok in E as (i2 & _ & E).
  apply bind_ok in E as (u2 & _ & E).
  injection E as <-. cbn [color background images output verbose debug greyscale].
  split; [exact (color_option_ok _ _ _ Hc)|].
  split; [exact (color_option_ok _ _ _ Hbg)|].
  auto.
Qed.

Lemma parse_args_colours_witness :
  (color Examples.parsed = VNone \/ color Examples.parsed = VStr "" \/
   exists r g b, color Examples.parsed = VList [r; g; b] /\
     byte_value r = true /\ byte_value g = true /\ byte_value b = true) /\
  (background Examples.parsed = VNone \/ background Examples.parsed = VStr "" \/
   exists r g b, background Examples.parsed = VList [r; g; b] /\
     byte_value r = true /\ byte_value g = true /\ byte_value b = true) /\
  images Examples.parsed = ns_images Examples.ns /\
  output Examples.parsed = ns_output Examples.ns /\
  verbose Examples.parsed = ns_verbose Examples.ns /\
  debug Examples.parsed = ns_debug Examples.ns /\
  greyscale Examples.parsed = ns_greyscale Examples.ns.
Proof.
  apply (parse_args_colours Examples.ns Examples.parsed).
  vm_compute. reflexivity.
Defined.


(** ** The size computation *)

(** X7.  A zero height, of the image or of the box, makes
    [resize_to_fit_bounding_box] raise before it computes a size: the
    division by a zero box height is the first thing it does. *)
Theorem new_img_size_zero_height (img_width img_height bb_width bb_height : Z) :
  img_height = 0 \/ bb_height = 0 ->
  (exists e, new_img_size img_width img_height bb_width bb_height = Raise e) /\
  (bb_height = 0 ->
   new_img_size img_width img_height bb_width bb_height = Raise ZeroDivisionError).
Proof.
  intros Hzero. unfold new_img_size.
  assert (Hbb : bb_height = 0 ->
                Float64.truediv bb_width bb_height = Raise ZeroDivisionError).
  { intros ->. reflexivity. }
  split.
  - destruct (Z.eq_dec bb_height 0) as [Hb|Hb].
    + rewrite (Hbb Hb). eexists. reflexivity.
    + destruct Hzero as [->|Hz]; [|contradiction].
      destruct (Float64.truediv bb_width bb_height) as [q|e];
        [|eexists; reflexivity].
      cbn [Py.bind]. unfold Float64.truediv at 1. cbn [Z.eqb Py.bind].
      eexists. reflexivity.
  - intros Hb. rewrite (Hbb Hb). reflexivity.
Qed.

Lemma new_img_size_zero_height_witness :
  (exists e, new_img_size 10 0 5 5 = Raise e) /\
  (5 = 0 -> new_img_size 10 0 5 5 = Raise ZeroDivisionError).
Proof. apply (new_img_size_zero_height 10 0 5 5). left. reflexivity. Defined.

(** The witness of X8, [new_img_size_exact_side]. *)
Lemma new_img_size_exact_side_witness : 0 = 49 \/ 49 = 49.
Proof.
  apply (new_img_size_exact_side 1 49 49 49 0 49). vm_compute. reflexivity.
Defined.

(** ** The placement, within the margins *)

(** X9.  A logo that fits between the margins is pasted between them: it
    starts at or after the left margin and ends at or before the right
    one, and likewise from top to bottom. *)
Theorem paste_position_within_margins
    (width height top right bottom left rw rh : Z) :
  0 <= rw <= width - left - right ->
  0 <= rh <= height - top - bottom ->
  let '(x, y) := paste_position width height top right bottom left rw rh in
  left <= x /\ x + rw <= width - right /\
  top <= y /\ y + rh <= height - bottom.
Proof.
  intros Hw Hh. unfold paste_position.
  pose proof (Z.div_mod (width - left - right - rw) 2 ltac:(lia)) as Hx.
  pose proof (Z.mod_pos_bound (width - left - right - rw) 2 ltac:(lia)) as Hxm.
  pose proof (Z.div_mod (height - top - bottom - rh) 2 ltac:(lia)) as Hy.
  pose proof (Z.mod_pos_bound (height - top - bottom - rh) 2 ltac:(lia)) as Hym.
  lia.
Qed.

Lemma paste_position_within_margins_witness :
  let '(x, y) := paste_position 50 40 1 2 3 4 31 36 in
  4 <= x /\ x + 31 <= 50 - 2 /\ 1 <= y /\ y + 36 <= 40 - 3.
Proof. apply (paste_position_within_margins 50 40 1 2 3 4 31 36); lia. Defined.

(** ** Recolouring twice *)

Lemma recolor_map_pixels (c0 c1 c2 : Z) (resized : raster rgba) :
  Forall (Forall (fun p => rgba_ok p = true)) (rows resized) ->
  recolor [c0; c1; c2] resized
  = Ok (map_pixels (fun p => RGBA c0 c1 c2 (alpha p)) resized).
Proof.
  intros Hbytes.
  unfold recolor, split, merge, point, same_size, map_pixels, getitem.
  cbn [nth_error Py.bind xsize ysize rows].
  rewrite !Z.eqb_refl. cbn [andb]. f_equal. f_equal.
  rewrite !List.map_map.
  rewrite !zip_with_map.
  apply map_ext_Forall.
  eapply List.Forall_impl; [|exact Hbytes].
  intros row Hrow. cbv beta.
  rewrite !List.map_map.
  rewrite !zip_with_map.
  apply map_ext_Forall.
  eapply List.Forall_impl; [|exact Hrow].
  intros p Hp. cbv beta in Hp |- *. cbn [fst snd].
  unfold rgba_ok in Hp.
  apply andb_true_iff in Hp as [Hp Ha].
  apply andb_true_iff in Hp as [Hp Hb].
  apply andb_true_iff in Hp as [Hr Hg].
  rewrite !lookup_table_const by assumption. reflexivity.
Qed.

(** X10.  Recolouring an image that was recoloured before gives what
    recolouring the first image gives: the last override alone decides the
    colour, and the alpha is still that of the first image. *)
Theorem recolor_last_override_wins (c0 c1 c2 d0 d1 d2 : Z) (resized : raster rgba) :
  Forall (Forall (fun p => rgba_ok p = true)) (rows resized) ->
  byte_value c0 = true -> byte_value c1 = true -> byte_value c2 = true ->
  exists once,
    recolor [c0; c1; c2] resized = Ok once /\
    recolor [d0; d1; d2] once = recolor [d0; d1; d2] resized.
Proof.
  intros Hbytes H0 H1 H2.
  exists (map_pixels (fun p => RGBA c0 c1 c2 (alpha p)) resized).
  split; [apply recolor_map_pixels; exact Hbytes|].
  rewrite (recolor_map_pixels d0 d1 d2 resized Hbytes).
  rewrite recolor_map_pixels.
  - unfold map_pixels. cbn [xsize ysize rows]. f_equal. f_equal.
    rewrite List.map_map. apply List.map_ext. intros row.
    rewrite List.map_map. reflexivity.
  - unfold map_pixels. cbn [rows].
    apply List.Forall_forall. intros row Hrow.
    apply in_map_iff in Hrow as (row0 & <- & Hrow0).
    apply List.Forall_forall. intros p Hp.
    apply in_map_iff in Hp as (p0 & <- & Hp0).
    pose proof (proj1 (List.Forall_forall _ _)
                  (proj1 (List.Forall_forall _ _) Hbytes row0 Hrow0) p0 Hp0) as Hok.
    unfold rgba_ok in Hok |- *. cbn [red green blue alpha].
    apply andb_true_iff in Hok as [_ Ha].
    rewrite H0, H1, H2, Ha. reflexivity.
Qed.

Lemma recolor_last_override_wins_witness :
  exists once,
    recolor [255; 171; 3] (Raster 2 1 [[RGBA 10 20 30 0; RGBA 40 50 60 200]])
      = Ok once /\
    recolor [1; 2; 3] once
    = recolor [1; 2; 3] (Raster 2 1 [[RGBA 10 20 30 0; RGBA 40 50 60 200]]).
Proof.
  apply (recolor_last_override_wins 255 171 3 1 2 3
           (Raster 2 1 [[RGBA 10 20 30 0; RGBA 40 50 60 200]]));
    [repeat constructor|reflexivity|reflexivity|reflexivity].
Defined.


(** ** The bounding box, on every image *)

(** A box that [getbbox] returns is not empty, lies within the image, and
    there is content. *)
Lemma getbbox_within {P : Type} (content : P -> bool) (im : raster P)
    (x0 y0 x1 y1 : Z) :
  well_formed im ->
  getbbox content im = Some (x0, y0, x1, y1) ->
  0 <= x0 < x1 /\ x1 <= xsize im /\ 0 <= y0 < y1 /\ y1 <= ysize im.
Proof.
  intros Hwf Hbox. unfold getbbox in Hbox.
  apply extent_spec in Hbox
    as (Hall & (ya & Hleft) & (yb & Hright) & (xa & Htop) & (xb & Hbottom)).
  assert (Hpix : forall x y, In (x, y) (content_points content 0 (rows im)) ->
                   0 <= x < xsize im /\ 0 <= y < ysize im).
  { intros x y Hxy.
    apply content_points_In in Hxy as (row & p & Hy & Hrow & Hx & Hp & Hc).
    rewrite Z.sub_0_r in Hrow.
    pose proof (pixel_at_nth_error im x y row p Hwf Hx Hy Hrow Hp) as Hpa.
    apply pixel_at_inv in Hpa as (? & ? & _). auto. }
  pose proof (Hall _ _ Hleft). pose proof (Hpix _ _ Hleft).
  pose proof (Hall _ _ Hright). pose proof (Hpix _ _ Hright).
  pose proof (Hall _ _ Htop). pose proof (Hpix _ _ Htop).
  pose proof (Hall _ _ Hbottom). pose proof (Hpix _ _ Hbottom).
  lia.
Qed.

Lemma content_columns_map {P Q : Type} (f : P -> Q) (content : Q -> bool)
    (row : list P) (x : Z) :
  content_columns content x (List.map f row)
  = content_columns (fun p => content (f p)) x row.
Proof.
  revert x. induction row as [|p row IH]; intros x; simpl; [reflexivity|].
  rewrite IH. reflexivity.
Qed.

Lemma getbbox_map_pixels {P Q : Type} (f : P -> Q) (content : Q -> bool)
    (im : raster P) :
  getbbox content (map_pixels f im) = getbbox (fun p => content (f p)) im.
Proof.
  unfold getbbox, map_pixels. cbn [rows]. f_equal.
  generalize 0 as y. induction (rows im) as [|row rs IH]; intros y; simpl;
    [reflexivity|].
  rewrite content_columns_map, IH. reflexivity.
Qed.

Lemma content_columns_ext {P : Type} (c1 c2 : P -> bool) (row : list P) (x : Z) :
  Forall (fun p => c1 p = c2 p) row ->
  content_columns c1 x row = content_columns c2 x row.
Proof.
  intros H. revert x. induction H as [|p row Hp _ IH]; intros x; simpl;
    [reflexivity|].
  rewrite Hp, IH. reflexivity.
Qed.

Lemma getbbox_ext {P : Type} (c1 c2 : P -> bool) (im : raster P) :
  Forall (Forall (fun p => c1 p = c2 p)) (rows im) ->
  getbbox c1 im = getbbox c2 im.
Proof.
  intros H. unfold getbbox. f_equal.
  generalize 0 as y. induction H as [|row rs Hrow _ IH]; intros y; simpl;
    [reflexivity|].
  rewrite (content_columns_ext c1 c2 row 0 Hrow), IH. reflexivity.
Qed.

Lemma zip_with_repeat {A B C : Type} (f : A -> B -> C) (l : list A) (c : B) :
  zip_with f l (repeat c (List.length l)) = List.map (fun x => f x c) l.
Proof. induction l as [|x l IH]; simpl; [reflexivity|]. rewrite IH. reflexivity. Qed.

Lemma zip_with_repeat_rows {A B C : Type} (f : A -> B -> C) (rs : list (list A))
    (c : B) (w : nat) :
  Forall (fun row => List.length row = w) rs ->
  zip_with (zip_with f) rs (repeat (repeat c w) (List.length rs))
  = List.map (List.map (fun x => f x c)) rs.
Proof.
  intros H. induction H as [|row rs Hrow _ IH]; simpl; [reflexivity|].
  rewrite IH. rewrite <- Hrow. rewrite zip_with_repeat. reflexivity.
Qed.

Lemma map_repeat_rows {A B : Type} (g : A -> B) (c : A) (w h : nat) :
  List.map (List.map g) (repeat (repeat c w) h) = repeat (repeat (g c) w) h.
Proof.
  assert (Hrow : List.map g (repeat c w) = repeat (g c) w).
  { induction w as [|w IHw]; simpl; [reflexivity|]. rewrite IHw. reflexivity. }
  induction h as [|h IH]; simpl; [reflexivity|].
  rewrite IH, Hrow. reflexivity.
Qed.

(** The image whose box the program takes when the probe is not
    transparent: every pixel against the posterized probe colour. *)
Lemma posterized_difference (image : raster rgba) (ink : rgb) :
  well_formed image ->
  difference (posterize (convert_RGB image) 1)
    (convert_RGB
       (new (xsize image, ysize image) (RGBA (r_ ink) (g_ ink) (b_ ink) 255)))
  = map_pixels
      (fun p =>
         difference_pixel
           (RGB (posterize_channel 1 (red p)) (posterize_channel 1 (green p))
                (posterize_channel 1 (blue p)))
           ink)
      image.
Proof.
  intros [Hh Hw]. unfold difference, posterize, convert_RGB, new, map_pixels.
  cbn [xsize ysize rows]. rewrite !Z.min_id. f_equal.
  rewrite map_repeat_rows. rewrite !List.map_map.
  replace (Z.to_nat (ysize image))
    with (List.length (List.map
            (fun x => List.map
               (fun p => RGB (posterize_channel 1 (r_ p)) (posterize_channel 1 (g_ p))
                             (posterize_channel 1 (b_ p)))
               (List.map (fun p => RGB (red p) (green p) (blue p)) x))
            (rows image)))
    by (rewrite length_map; lia).
  rewrite (zip_with_repeat_rows _ _ _ (Z.to_nat (xsize image))).
  - rewrite List.map_map. apply List.map_ext. intros row.
    rewrite !List.map_map. apply List.map_ext. intros p.
    cbn [r_ g_ b_]. destruct ink; reflexivity.
  - apply List.Forall_forall. intros row Hrow.
    apply in_map_iff in Hrow as (row0 & <- & Hrow0).
    rewrite !length_map.
    pose proof (proj1 (List.Forall_forall _ _) Hw row0 Hrow0) as Hl.
    cbv beta in Hl. lia.
Qed.

(** With a probe that is not transparent, the box is that of the pixels
    whose posterized colour differs from the probe's. *)
Lemma bounding_box_opaque (image : raster rgba) (probe : rgba) :
  well_formed image ->
  getpixel image 3 3 = Ok probe -> alpha probe <> 0 ->
  bounding_box image =
    Ok (getbbox
          (fun p =>
             lit (difference_pixel
                    (RGB (posterize_channel 1 (red p)) (posterize_channel 1 (green p))
                         (posterize_channel 1 (blue p)))
                    (RGB (posterize_channel 1 (red probe))
                         (posterize_channel 1 (green probe))
                         (posterize_channel 1 (blue probe)))))
          image).
Proof.
  intros Hwf Hprobe Halpha. unfold bounding_box. rewrite Hprobe. cbn [Py.bind].
  destruct (Z.eqb_spec (alpha probe) 0) as [|_]; [contradiction|].
  assert (Hink : getpixel (posterize (convert_RGB image) 1) 3 3
                 = Ok (RGB (posterize_channel 1 (red probe))
                           (posterize_channel 1 (green probe))
                           (posterize_channel 1 (blue probe)))).
  { unfold getpixel in *. unfold posterize, convert_RGB.
    rewrite !pixel_at_map_pixels.
    destruct (pixel_at image 3 3) as [p|]; [|discriminate].
    injection Hprobe as ->. reflexivity. }
  rewrite Hink. cbn [Py.bind].
  rewrite (posterized_difference image _ Hwf).
  rewrite getbbox_map_pixels. reflexivity.
Qed.

(** Posterizing a byte to one bit keeps its half of the range. *)
Lemma posterize_channel_byte (v : Z) :
  byte_value v = true ->
  posterize_channel 1 v = if Behaviour.upper_half v then 128 else 0.
Proof.
  unfold byte_value, posterize_channel, Behaviour.upper_half. intros H.
  apply andb_true_iff in H as [H0 H255].
  apply Z.leb_le in H0. apply Z.leb_le in H255.
  change (2 ^ (8 - 1) - 1) with (Z.ones 7).
  rewrite <- Z.ldiff_land, Z.ldiff_ones_r by lia.
  rewrite Z.shiftr_div_pow2, Z.shiftl_mul_pow2 by lia.
  change (2 ^ 7) with 128.
  destruct (Z.leb_spec 128 v).
  - assert (v / 128 = 1) by (symmetry; apply Z.div_unique with (r := v - 128); lia).
    lia.
  - rewrite Z.div_small by lia. reflexivity.
Qed.

Lemma stands_out_posterized (probe p : rgba) :
  rgba_ok probe = true -> rgba_ok p = true ->
  lit (difference_pixel
         (RGB (posterize_channel 1 (red p)) (posterize_channel 1 (green p))
              (posterize_channel 1 (blue p)))
         (RGB (posterize_channel 1 (red probe)) (posterize_channel 1 (green probe))
              (posterize_channel 1 (blue probe))))
  = Behaviour.stands_out probe p.
Proof.
  unfold rgba_ok. intros Hq Hp.
  apply andb_true_iff in Hq as [Hq _]. apply andb_true_iff in Hq as [Hq Hqb].
  apply andb_true_iff in Hq as [Hqr Hqg].
  apply andb_true_iff in Hp as [Hp _]. apply andb_true_iff in Hp as [Hp Hpb].
  apply andb_true_iff in Hp as [Hpr Hpg].
  rewrite !posterize_channel_byte by assumption.
  unfold Behaviour.stands_out, lit, difference_pixel. cbn [r_ g_ b_].
  destruct (Behaviour.upper_half (red p)), (Behaviour.upper_half (red probe)),
    (Behaviour.upper_half (green p)), (Behaviour.upper_half (green probe)),
    (Behaviour.upper_half (blue p)), (Behaviour.upper_half (blue probe));
    reflexivity.
Qed.

Lemma bounding_box_stands_out (image : raster rgba) (probe : rgba) :
  well_formed image ->
  Forall (Forall (fun p => rgba_ok p = true)) (rows image) ->
  getpixel image 3 3 = Ok probe -> alpha probe <> 0 ->
  bounding_box image = Ok (getbbox (Behaviour.stands_out probe) image).
Proof.
  intros Hwf Hbytes Hprobe Halpha.
  rewrite (bounding_box_opaque image probe Hwf Hprobe Halpha). f_equal.
  assert (Hq : rgba_ok probe = true).
  { unfold getpixel in Hprobe.
    destruct (pixel_at image 3 3) as [q|] eqn:Hq; [|discriminate].
    injection Hprobe as ->.
    apply pixel_at_inv in Hq as (_ & _ & row & Hrow & Hpx).
    apply nth_error_In in Hrow. apply nth_error_In in Hpx.
    exact (proj1 (List.Forall_forall _ _)
             (proj1 (List.Forall_forall _ _) Hbytes row Hrow) probe Hpx). }
  apply getbbox_ext.
  eapply List.Forall_impl; [|exact Hbytes].
  intros row Hrow. eapply List.Forall_impl; [|exact Hrow].
  intros p Hp. cbv beta in Hp |- *. apply stands_out_posterized; assumption.
Qed.

(** X11.  With a probe pixel that is not transparent, the bounding box is
    the smallest box containing every pixel that stands out against the
    probe: a pixel of which the red, the green or the blue channel lies in
    the other half of 0..255 than the probe's.  Alpha plays no part, and
    there is no box exactly when no pixel stands out. *)
Theorem bounding_box_of_opaque_probe (image : raster rgba) (probe : rgba) :
  well_formed image ->
  Forall (Forall (fun p => rgba_ok p = true)) (rows image) ->
  getpixel image 3 3 = Ok probe ->
  alpha probe <> 0 ->
  match bounding_box image with
  | Ok (Some bx) => Spec.smallest_box (Behaviour.stands_out probe) image bx
  | Ok None =>
      forall x y p, pixel_at image x y = Some p ->
                    Behaviour.stands_out probe p = false
  | Raise _ => False
  end.
Proof.
  intros Hwf Hbytes Hprobe Halpha.
  rewrite (bounding_box_stands_out image probe Hwf Hbytes Hprobe Halpha).
  exact (getbbox_smallest (Behaviour.stands_out probe) image Hwf).
Qed.

Lemma dark_on_white_well_formed : well_formed MoreExamples.dark_on_white.
Proof. apply tabulate_well_formed; lia. Qed.

Lemma dark_on_white_bytes :
  Forall (Forall (fun p => rgba_ok p = true)) (rows MoreExamples.dark_on_white).
Proof. vm_compute. repeat constructor. Qed.

Lemma bounding_box_of_opaque_probe_witness :
  match bounding_box MoreExamples.dark_on_white with
  | Ok (Some bx) =>
      Spec.smallest_box (Behaviour.stands_out (RGBA 255 255 255 255))
        MoreExamples.dark_on_white bx
  | Ok None =>
      forall x y p, pixel_at MoreExamples.dark_on_white x y = Some p ->
                    Behaviour.stands_out (RGBA 255 255 255 255) p = false
  | Raise _ => False
  end.
Proof.
  pose proof (bounding_box_of_opaque_probe MoreExamples.dark_on_white
                (RGBA 255 255 255 255) dark_on_white_well_formed
                dark_on_white_bytes) as H.
  apply H.
  - vm_compute. reflexivity.
  - discriminate.
Defined.


Lemma getbbox_content {P : Type} (content : P -> bool) (im : raster P) (bx : box) :
  well_formed im ->
  getbbox content im = Some bx ->
  exists x y p, pixel_at im x y = Some p /\ content p = true.
Proof.
  intros Hwf Hbox. destruct bx as [[[x0 y0] x1] y1]. unfold getbbox in Hbox.
  apply extent_spec in Hbox as (_ & (ya & Hleft) & _).
  apply content_points_In in Hleft as (row & p & Hy & Hrow & Hx & Hp & Hc).
  rewrite Z.sub_0_r in Hrow.
  exists x0, ya, p. split; [|exact Hc].
  apply (pixel_at_nth_error im x0 ya row p); auto.
Qed.

(** The three ways [bounding_box] goes: no probe pixel, a transparent
    one, another one.  In the last two the box is [getbbox] of the image
    for some notion of content. *)
Lemma bounding_box_cases (image : raster rgba) :
  well_formed image ->
  (pixel_at image 3 3 = None /\ bounding_box image = Raise IndexError) \/
  (exists probe content,
     pixel_at image 3 3 = Some probe /\
     bounding_box image = Ok (getbbox content image) /\
     content probe = false).
Proof.
  intros Hwf. destruct (pixel_at image 3 3) as [probe|] eqn:Hp.
  - right.
    assert (Hprobe : getpixel image 3 3 = Ok probe)
      by (unfold getpixel; rewrite Hp; reflexivity).
    destruct (Z.eq_dec (alpha probe) 0) as [Ha|Ha].
    + exists probe, opaque. split; [reflexivity|].
      split; [apply (bounding_box_transparent image probe Hprobe Ha)|].
      unfold opaque. rewrite Ha. reflexivity.
    + eexists probe, _. split; [reflexivity|].
      split; [apply (bounding_box_opaque image probe Hwf Hprobe Ha)|].
      cbv beta. unfold lit, difference_pixel. cbn [r_ g_ b_].
      rewrite !Z.sub_diag. reflexivity.
  - left. split; [reflexivity|]. unfold bounding_box, getpixel. rewrite Hp.
    reflexivity.
Qed.

Lemma probe_pixel_iff (image : raster rgba) :
  well_formed image ->
  (pixel_at image 3 3 = None <-> xsize image <= 3 \/ ysize image <= 3).
Proof.
  intros Hwf. split.
  - intros Hnone.
    destruct (Z_le_gt_dec (xsize image) 3) as [|Hx]; [auto|].
    destruct (Z_le_gt_dec (ysize image) 3) as [|Hy]; [auto|].
    destruct (pixel_at_in_range image 3 3 Hwf ltac:(lia) ltac:(lia)) as [p Hp].
    congruence.
  - intros Hsmall. destruct (pixel_at image 3 3) as [p|] eqn:Hp; [|reflexivity].
    apply pixel_at_inv in Hp as (? & ? & _). lia.
Qed.

(** X12.  [bounding_box] fails in one way only: on an image narrower or
    lower than four pixels, which has no pixel at (3, 3), it raises
    [IndexError].  On every other image it returns. *)
Theorem bounding_box_needs_four_by_four (image : raster rgba) :
  well_formed image ->
  ((xsize image <= 3 \/ ysize image <= 3) /\
   bounding_box image = Raise IndexError) \/
  (4 <= xsize image /\ 4 <= ysize image /\
   exists bb, bounding_box image = Ok bb).
Proof.
  intros Hwf. pose proof (probe_pixel_iff image Hwf) as Hiff.
  destruct (bounding_box_cases image Hwf)
    as [[Hnone Hraise]|(probe & content & Hsome & Hbox & _)].
  - left. split; [apply Hiff; exact Hnone|exact Hraise].
  - right.
    assert (~ (xsize image <= 3 \/ ysize image <= 3)).
    { intros Hsmall. apply Hiff in Hsmall. congruence. }
    split; [lia|]. split; [lia|]. eexists. exact Hbox.
Qed.

Lemma narrow_well_formed : well_formed MoreExamples.narrow.
Proof. apply tabulate_well_formed; lia. Qed.

Lemma bounding_box_needs_four_by_four_witness :
  ((xsize MoreExamples.narrow <= 3 \/ ysize MoreExamples.narrow <= 3) /\
   bounding_box MoreExamples.narrow = Raise IndexError) \/
  (4 <= xsize MoreExamples.narrow /\ 4 <= ysize MoreExamples.narrow /\
   exists bb, bounding_box MoreExamples.narrow = Ok bb).
Proof.
  apply (bounding_box_needs_four_by_four MoreExamples.narrow narrow_well_formed).
Defined.

(** X13.  A bounding box, whichever way it was found, is not empty and
    lies within the image. *)
Theorem bounding_box_within_image (image : raster rgba) (x0 y0 x1 y1 : Z) :
  well_formed image ->
  bounding_box image = Ok (Some (x0, y0, x1, y1)) ->
  0 <= x0 < x1 /\ x1 <= xsize image /\ 0 <= y0 < y1 /\ y1 <= ysize image.
Proof.
  intros Hwf Hbox.
  destruct (bounding_box_cases image Hwf)
    as [[_ Hraise]|(probe & content & _ & Hget & _)]; [congruence|].
  rewrite Hget in Hbox. injection Hbox as Hbox.
  exact (getbbox_within content image x0 y0 x1 y1 Hwf Hbox).
Qed.

Lemma bounding_box_within_image_witness :
  0 <= 10 < 30 /\ 30 <= xsize Examples.logo_40 /\
  0 <= 10 < 30 /\ 30 <= ysize Examples.logo_40.
Proof.
  apply (bounding_box_within_image Examples.logo_40 10 10 30 30
           logo_40_well_formed).
  vm_compute. reflexivity.
Defined.

(** X14.  An image of at least 4x4 pixels without content has no bounding
    box, and cropping then keeps the whole image: this holds when every
    pixel is transparent, and when every pixel is the same. *)
Theorem bounding_box_without_content (image : raster rgba) :
  well_formed image ->
  4 <= xsize image -> 4 <= ysize image ->
  (forall x y p, pixel_at image x y = Some p -> alpha p = 0) \/
  (exists c, forall x y p, pixel_at image x y = Some p -> p = c) ->
  bounding_box image = Ok None /\ crop image None = image.
Proof.
  intros Hwf Hx Hy Hflat. split; [|reflexivity].
  destruct (pixel_at_in_range image 3 3 Hwf ltac:(lia) ltac:(lia)) as [probe Hp].
  assert (Hprobe : getpixel image 3 3 = Ok probe)
    by (unfold getpixel; rewrite Hp; reflexivity).
  destruct (Z.eq_dec (alpha probe) 0) as [Ha|Ha].
  - rewrite (bounding_box_transparent image probe Hprobe Ha).
    destruct (getbbox opaque image) as [bx|] eqn:Hbox; [|reflexivity].
    exfalso. destruct (getbbox_content opaque image bx Hwf Hbox) as (x & y & p & Hxy & Hc).
    apply opaque_alpha in Hc. apply Hc.
    destruct Hflat as [Hall|[c Hall]].
    + exact (Hall x y p Hxy).
    + rewrite (Hall x y p Hxy), <- (Hall 3 3 probe Hp). exact Ha.
  - rewrite (bounding_box_opaque image probe Hwf Hprobe Ha).
    match goal with
    | |- Ok (getbbox ?content image) = _ =>
        destruct (getbbox content image) as [bx|] eqn:Hbox; [|reflexivity];
        exfalso;
        destruct (getbbox_content content image bx Hwf Hbox)
          as (x & y & p & Hxy & Hc)
    end.
    destruct Hflat as [Hall|[c Hall]].
    + apply Ha. exact (Hall 3 3 probe Hp).
    + rewrite (Hall x y p Hxy), <- (Hall 3 3 probe Hp) in Hc.
      unfold lit, difference_pixel in Hc. cbn [r_ g_ b_] in Hc.
      rewrite !Z.sub_diag in Hc. discriminate Hc.
Qed.

Lemma blank_well_formed : well_formed MoreExamples.blank.
Proof. apply tabulate_well_formed; lia. Qed.

Lemma blank_transparent (x y : Z) (p : rgba) :
  pixel_at MoreExamples.blank x y = Some p -> alpha p = 0.
Proof.
  intros Hp. unfold MoreExamples.blank in Hp.
  apply tabulate_pixel_at in Hp. subst p. reflexivity.
Qed.

Lemma bounding_box_without_content_witness :
  bounding_box MoreExamples.blank = Ok None /\
  crop MoreExamples.blank None = MoreExamples.blank.
Proof.
  apply (bounding_box_without_content MoreExamples.blank blank_well_formed).
  - unfold MoreExamples.blank, Reference.tabulate. cbn [xsize]. lia.
  - unfold MoreExamples.blank, Reference.tabulate. cbn [ysize]. lia.
  - left. exact blank_transparent.
Defined.

(** ** Cropping to the bounding box *)

Lemma tabulate_pixel_at_in_range {P : Type} (w h : Z) (f : Z -> Z -> P) (x y : Z) :
  0 <= x < w -> 0 <= y < h ->
  pixel_at (Reference.tabulate w h f) x y = Some (f x y).
Proof.
  intros Hx Hy.
  assert (Hwf : well_formed (Reference.tabulate w h f))
    by (apply tabulate_well_formed; lia).
  destruct (pixel_at_in_range (Reference.tabulate w h f) x y Hwf Hx Hy) as [p Hp].
  rewrite Hp. f_equal. exact (tabulate_pixel_at w h f x y p Hp).
Qed.

Lemma crop_bounding_box_facts (image : raster rgba) (bb : option box) :
  well_formed image ->
  bounding_box image = Ok bb ->
  well_formed (crop image bb) /\
  0 < xsize (crop image bb) /\ 0 < ysize (crop image bb) /\
  match bb with
  | Some (x0, y0, x1, y1) =>
      xsize (crop image bb) = x1 - x0 /\ ysize (crop image bb) = y1 - y0 /\
      forall x y, x0 <= x < x1 -> y0 <= y < y1 ->
        pixel_at (crop image bb) (x - x0) (y - y0) = pixel_at image x y
  | None => crop image bb = image
  end.
Proof.
  intros Hwf Hbox.
  destruct (bounding_box_cases image Hwf)
    as [[_ Hraise]|(probe & content & Hsome & Hget & _)]; [congruence|].
  destruct bb as [[[[x0 y0] x1] y1]|].
  - rewrite Hget in Hbox. injection Hbox as Hbox.
    pose proof (getbbox_within content image x0 y0 x1 y1 Hwf Hbox) as Hin.
    change (crop image (Some (x0, y0, x1, y1)))
      with (Reference.tabulate (x1 - x0) (y1 - y0)
              (fun i j => match pixel_at image (x0 + i) (y0 + j) with
                          | Some p => p
                          | None => RGBA 0 0 0 0
                          end)).
    split; [apply tabulate_well_formed; lia|].
    unfold Reference.tabulate at 1 2 3 4. cbn [xsize ysize].
    split; [lia|]. split; [lia|]. split; [reflexivity|]. split; [reflexivity|].
    intros x y Hx Hy.
    rewrite tabulate_pixel_at_in_range by lia.
    replace (x0 + (x - x0)) with x by lia. replace (y0 + (y - y0)) with y by lia.
    destruct (pixel_at_in_range image x y Hwf ltac:(lia) ltac:(lia)) as [p ->].
    reflexivity.
  - cbn [crop]. apply pixel_at_inv in Hsome as (? & ? & _).
    split; [exact Hwf|]. split; [lia|]. split; [lia|]. reflexivity.
Qed.


(** X15.  The image cropped to its bounding box is never empty, and
    within the box it shows the image, shifted to the corner of the box;
    when there is no box it is the image itself. *)
Theorem crop_to_bounding_box (image : raster rgba) (bb : option box) :
  well_formed image ->
  bounding_box image = Ok bb ->
  well_formed (crop image bb) /\
  0 < xsize (crop image bb) /\ 0 < ysize (crop image bb) /\
  match bb with
  | Some (x0, y0, x1, y1) =>
      xsize (crop image bb) = x1 - x0 /\ ysize (crop image bb) = y1 - y0 /\
      forall x y, x0 <= x < x1 -> y0 <= y < y1 ->
        pixel_at (crop image bb) (x - x0) (y - y0) = pixel_at image x y
  | None => crop image bb = image
  end.
Proof. exact (crop_bounding_box_facts image bb). Qed.

Lemma crop_to_bounding_box_witness :
  well_formed (crop Examples.logo_40 (Some (10, 10, 30, 30))) /\
  0 < xsize (crop Examples.logo_40 (Some (10, 10, 30, 30))) /\
  0 < ysize (crop Examples.logo_40 (Some (10, 10, 30, 30))) /\
  xsize (crop Examples.logo_40 (Some (10, 10, 30, 30))) = 30 - 10 /\
  ysize (crop Examples.logo_40 (Some (10, 10, 30, 30))) = 30 - 10 /\
  forall x y, 10 <= x < 30 -> 10 <= y < 30 ->
    pixel_at (crop Examples.logo_40 (Some (10, 10, 30, 30))) (x - 10) (y - 10)
    = pixel_at Examples.logo_40 x y.
Proof.
  pose proof (crop_to_bounding_box Examples.logo_40 (Some (10, 10, 30, 30))
                logo_40_well_formed) as H.
  apply H. vm_compute. reflexivity.
Defined.


(** ** Whole runs *)


Lemma opened_app (l1 l2 : list event) :
  Behaviour.opened (l1 ++ l2) = Behaviour.opened l1 ++ Behaviour.opened l2.
Proof. unfold Behaviour.opened. apply flat_map_app. Qed.

(** X17.  A run that completes has opened every path once, in the order
    given, and has answered each with one saved image or one warning. *)
Theorem run_accounts_for_every_path `{Imaging} (a : args) (paths : list string)
    (f : gmap string (list Byte.byte)) (ev : list event) (w' : world) :
  run_images a paths (World f ev) = (Ok tt, w') ->
  exists new,
    events w' = new ++ ev /\
    Behaviour.opened (rev new) = paths /\
    (List.length (List.filter Behaviour.is_save new)
     + List.length (List.filter Behaviour.is_warning new))%nat
    = List.length paths.
Proof.
  revert f ev. induction paths as [|path rest IH]; intros f ev Hrun.
  { injection Hrun as <-. exists []. repeat split. }
  assert (Hstep : forall g front,
            run_images a rest (World g (front ++ Open path :: ev)) = (Ok tt, w') ->
            Behaviour.opened (rev front) = [] ->
            (List.length (List.filter Behaviour.is_save front)
             + List.length (List.filter Behaviour.is_warning front))%nat = 1%nat ->
            exists new,
              events w' = new ++ ev /\
              Behaviour.opened (rev new) = path :: rest /\
              (List.length (List.filter Behaviour.is_save new)
               + List.length (List.filter Behaviour.is_warning new))%nat
              = S (List.length rest)).
  { intros g front Hrest Hnone Hone.
    destruct (IH g (front ++ Open path :: ev) Hrest) as (new & Hev & Hopen & Hcount).
    exists (new ++ front ++ [Open path]). split.
    - rewrite Hev. rewrite <- !app_assoc. reflexivity.
    - split.
      + rewrite !rev_app_distr, !opened_app.
        rewrite Hnone, Hopen. reflexivity.
      + rewrite !List.filter_app, !length_app. cbn [List.filter Behaviour.is_save
          Behaviour.is_warning List.length]. lia. }
  cbn [run_images] in Hrun. unfold emit, open_image, save in Hrun.
  cbn [files events] in Hrun.
  destruct (f !! path) as [content|].
  - destruct (decode content) as [image|e].
    + destruct (process a image) as [final|e].
      * destruct (verbose a); cbn [files events] in Hrun.
        -- apply (Hstep _ [Save _ _; LogInfo _] Hrun); reflexivity.
        -- apply (Hstep _ [Save _ _] Hrun); reflexivity.
      * destruct (verbose a); discriminate Hrun.
    + destruct e; try discriminate Hrun;
        apply (Hstep _ [LogWarning _] Hrun); reflexivity.
  - apply (Hstep _ [LogWarning _] Hrun); reflexivity.
Qed.

Lemma run_accounts_for_every_path_witness :
  exists new,
    events (snd (@run_images Reference.imaging Examples.parsed
                   ["a/logo.raw"; "missing.png"; "junk.txt"]%string
                   (World Examples.disk []))) = new ++ [] /\
    Behaviour.opened (rev new) = ["a/logo.raw"; "missing.png"; "junk.txt"]%string /\
    (List.length (List.filter Behaviour.is_save new)
     + List.length (List.filter Behaviour.is_warning new))%nat
    = List.length ["a/logo.raw"; "missing.png"; "junk.txt"]%string.
Proof.
  apply (run_accounts_for_every_path (H := Reference.imaging) Examples.parsed
           ["a/logo.raw"; "missing.png"; "junk.txt"]%string Examples.disk []).
  vm_compute. reflexivity.
Defined.

Lemma write_all_changed (writes : list (string * list Byte.byte))
    (f : gmap string (list Byte.byte)) (k : string) :
  write_all writes f !! k <> f !! k -> In k (List.map fst writes).
Proof.
  revert f. induction writes as [|[k0 c0] writes IH]; intros f Hne.
  - exfalso. apply Hne. reflexivity.
  - destruct (decide (k0 = k)) as [->|Hk]; [left; reflexivity|].
    right. apply (IH (<[k0 := c0]> f)). cbn in Hne.
    rewrite lookup_insert_ne by exact Hk. exact Hne.
Qed.

(** X18.  A run changes no file but the outputs of its inputs: a name
    under which the files differ after the run is [./<output>/<stem>.png]
    for one of the input paths.  In particular no other file is created,
    overwritten or removed. *)
Theorem main_changes_only_outputs `{Imaging} (ns : namespace)
    (f : gmap string (list Byte.byte)) (ev : list event) (k : string) :
  files (snd (main ns (World f ev))) !! k <> f !! k ->
  exists q, In q (ns_images ns) /\ k = output_path (ns_output ns) q.
Proof.
  intros Hne.
  destruct (main_lockstep ns f f ev ev (fun p _ => eq_refl))
    as (r & new & writes & H1 & _ & Hw).
  rewrite H1 in Hne. cbn [snd files] in Hne.
  apply write_all_changed in Hne.
  apply in_map_iff in Hne as (kv & <- & Hkv).
  destruct (proj1 (List.Forall_forall _ _) Hw kv Hkv) as (q & Hq & Hout).
  exists q. auto.
Qed.

Lemma examples_output_changed :
  files (snd (@main Reference.imaging Examples.ns (World Examples.disk [])))
    !! "./cropped/logo.png"%string
  <> Examples.disk !! "./cropped/logo.png"%string.
Proof. intros Heq. vm_compute in Heq. discriminate Heq. Qed.

Lemma main_changes_only_outputs_witness :
  exists q, In q (ns_images Examples.ns) /\
            "./cropped/logo.png"%string = output_path (ns_output Examples.ns) q.
Proof.
  apply (main_changes_only_outputs (H := Reference.imaging) Examples.ns
           Examples.disk [] "./cropped/logo.png").
  exact examples_output_changed.
Defined.


(** ** The logging flags *)

Lemma parse_args_with_logging (ns : namespace) (v d : bool) :
  parse_args (Behaviour.with_logging ns v d) =
    match parse_args ns with
    | Ok a =>
        Ok (Args (images a) (height a) (width a) (margin a) (background a)
              (output a) v d (greyscale a) (color a))
    | Raise e => Raise e
    end.
Proof.
  unfold parse_args, Behaviour.with_logging.
  cbn [ns_images ns_height ns_width ns_margin ns_background ns_output ns_verbose
       ns_debug ns_greyscale ns_color].
  repeat match goal with
         | |- context [Py.bind ?c _] =>
             destruct c; cbn [Py.bind]; try reflexivity
         end.
Qed.

Lemma quiet_app (l1 l2 : list event) :
  Behaviour.quiet (l1 ++ l2) = Behaviour.quiet l1 ++ Behaviour.quiet l2.
Proof. unfold Behaviour.quiet. apply List.filter_app. Qed.

Lemma run_images_logging `{Imaging} (a : args) (v d : bool) (paths : list string) :
  forall (f : gmap string (list Byte.byte)) (ev ev' : list event),
    Behaviour.quiet ev = Behaviour.quiet ev' ->
    let a' := Args (images a) (height a) (width a) (margin a) (background a)
                (output a) v d (greyscale a) (color a) in
    fst (run_images a paths (World f ev)) = fst (run_images a' paths (World f ev')) /\
    files (snd (run_images a paths (World f ev)))
      = files (snd (run_images a' paths (World f ev'))) /\
    Behaviour.quiet (events (snd (run_images a paths (World f ev))))
      = Behaviour.quiet (events (snd (run_images a' paths (World f ev')))).
Proof.
  intros f ev ev' Hq a'. revert f ev ev' Hq.
  induction paths as [|path rest IH]; intros f ev ev' Hq; [auto|].
  assert (Hp : forall image, process a' image = process a image) by reflexivity.
  assert (Hcons : forall e l l', Behaviour.quiet l = Behaviour.quiet l' ->
                    Behaviour.quiet (e :: l) = Behaviour.quiet (e :: l')).
  { intros e l l' Hl. unfold Behaviour.quiet in *. cbn [List.filter].
    rewrite Hl. reflexivity. }
  assert (Hinfo : forall m l l', Behaviour.quiet l = Behaviour.quiet l' ->
                    Behaviour.quiet (LogInfo m :: l) = Behaviour.quiet l').
  { intros m l l' Hl. exact Hl. }
  assert (Hinfo' : forall m l l', Behaviour.quiet l = Behaviour.quiet l' ->
                     Behaviour.quiet l = Behaviour.quiet (LogInfo m :: l')).
  { intros m l l' Hl. exact Hl. }
  cbn [run_images]. unfold emit, open_image, save. cbn [files events].
  change (output a') with (output a). change (verbose a') with v.
  destruct (f !! path) as [content|].
  - destruct (decode content) as [image|e].
    + rewrite Hp. destruct (process a image) as [final|e].
      * destruct (verbose a), v; cbn [files events]; apply IH;
          repeat first [apply Hcons | apply Hinfo | apply Hinfo']; exact Hq.
      * destruct (verbose a), v; cbn [fst snd files events];
          repeat split; auto.
    + destruct e; cbn [fst snd files events];
        try (repeat split; auto; fail);
        apply IH; auto.
  - apply IH; auto.
Qed.

(** X19.  [--verbose] and [--debug] change what is logged and nothing
    else: with other flags the run has the same outcome, leaves the same
    files, and its events but for the information messages and the printed
    arguments are the same. *)
Theorem logging_flags_change_the_log_only `{Imaging} (ns : namespace) (v d : bool)
    (f : gmap string (list Byte.byte)) (ev : list event) :
  fst (main ns (World f ev))
    = fst (main (Behaviour.with_logging ns v d) (World f ev)) /\
  files (snd (main ns (World f ev)))
    = files (snd (main (Behaviour.with_logging ns v d) (World f ev))) /\
  Behaviour.quiet (events (snd (main ns (World f ev))))
    = Behaviour.quiet
        (events (snd (main (Behaviour.with_logging ns v d) (World f ev)))).
Proof.
  unfold main. rewrite parse_args_with_logging.
  destruct (parse_args ns) as [a|e]; [|auto].
  cbn [debug output images]. unfold emit.
  destruct (debug a), d; cbn [files events];
    apply (run_images_logging a v _ (images a) f); reflexivity.
Qed.

(** ** The output path *)

Lemma split_no_separator (sep : ascii) (s part : string) :
  In part (Str.split sep s) -> ~ In sep (list_ascii_of_string part).
Proof.
  revert part. induction s as [|c s IH]; intros part; simpl.
  - intros [<-|[]]. intros [].
  - destruct (Ascii.eqb_spec c sep) as [->|Hc].
    + intros [<-|Hin]; [intros []|apply IH; exact Hin].
    + pose proof (split_nonempty sep s) as Hne.
      destruct (Str.split sep s) as [|w ws]; [congruence|].
      intros [<-|Hin].
      * simpl. intros [Heq|Hin]; [congruence|].
        apply (IH w); [left; reflexivity|exact Hin].
      * apply IH. right. exact Hin.
Qed.

Lemma last_default_or_In {A : Type} (l : list A) (d : A) :
  List.last l d = d \/ In (List.last l d) l.
Proof.
  induction l as [|x l IH]; [left; reflexivity|].
  destruct l as [|y l]; [right; left; reflexivity|].
  destruct IH as [IH|IH].
  - left. exact IH.
  - right. right. exact IH.
Qed.

Lemma substring_chars (n : string) (i : nat) (c : ascii) :
  In c (list_ascii_of_string (substring 0 i n)) -> In c (list_ascii_of_string n).
Proof.
  revert i. induction n as [|x n IH]; intros i.
  - destruct i; simpl; auto.
  - destruct i as [|i]; simpl; [intros []|].
    intros [Heq|Hin]; [left; exact Heq|right; apply (IH i); exact Hin].
Qed.

(** X20.  The name of an output file has no [/] in it: whatever the input
    path, the file is written in the output directory itself, as
    [./<output>/<stem>.png] with the stem of the last component of the
    path. *)
Theorem output_stays_in_output_directory (output path : string) :
  exists stem,
    output_path output path = ("./" ++ output ++ "/" ++ stem ++ ".png")%string /\
    ~ In "/"%char (list_ascii_of_string stem).
Proof.
  exists (PathLib.stem path). split; [reflexivity|].
  assert (Hname : ~ In "/"%char (list_ascii_of_string (PathLib.name path))).
  { unfold PathLib.name.
    match goal with
    | |- ~ In _ (list_ascii_of_string (List.last ?l _)) =>
        destruct (last_default_or_In l EmptyString) as [-> | Hin]
    end.
    - intros [].
    - apply List.filter_In in Hin as [Hin _].
      apply (split_no_separator _ _ _ Hin). }
  unfold PathLib.stem.
  destruct (PathLib.rfind_dot (PathLib.name path)) as [i|]; [|exact Hname].
  destruct ((0 <? i)%nat && (i <? String.length (PathLib.name path) - 1)%nat);
    [|exact Hname].
  intros Hin. apply Hname. apply (substring_chars _ i). exact Hin.
Qed.

(** ** An image without a probe pixel *)

(** X21.  A file that decodes to an image narrower or lower than four
    pixels ends the run: the [IndexError] of the probe is not caught, no
    image is saved for the path, and the paths after it are not opened. *)
Theorem small_image_ends_the_run `{Imaging} (a : args) (path : string)
    (rest : list string) (f : gmap string (list Byte.byte)) (ev : list event)
    (content : list Byte.byte) (image : raster rgba) :
  f !! path = Some content ->
  decode content = Ok image ->
  well_formed image ->
  xsize image <= 3 \/ ysize image <= 3 ->
  exists new,
    run_images a (path :: rest) (World f ev)
      = (Raise IndexError, World f (new ++ ev)) /\
    Behaviour.opened new = [path] /\
    List.filter Behaviour.is_save new = [].
Proof.
  intros Hfile Hdec Hwf Hsmall.
  assert (Hbox : bounding_box image = Raise IndexError).
  { destruct (bounding_box_cases image Hwf)
      as [[_ Hraise]|(probe & content' & Hsome & _)]; [exact Hraise|].
    apply (probe_pixel_iff image Hwf) in Hsmall. congruence. }
  assert (Hproc : process a image = Raise IndexError).
  { unfold process. rewrite Hbox. reflexivity. }
  cbn [run_images]. unfold emit, open_image. cbn [files events].
  rewrite Hfile, Hdec, Hproc.
  destruct (verbose a); cbn [files events].
  - exists [LogInfo (" Image `" ++ path ++ "` correctly opened"); Open path].
    repeat split.
  - exists [Open path]. repeat split.
Qed.

Lemma small_image_ends_the_run_witness :
  exists new,
    @run_images Reference.imaging Examples.parsed ["thin.raw"; "a/logo.raw"]%string
      (World MoreExamples.narrow_disk [])
      = (Raise IndexError, World MoreExamples.narrow_disk (new ++ [])) /\
    Behaviour.opened new = ["thin.raw"%string] /\
    List.filter Behaviour.is_save new = [].
Proof.
  apply (small_image_ends_the_run (H := Reference.imaging) Examples.parsed
           "thin.raw" ["a/logo.raw"%string] MoreExamples.narrow_disk []
           MoreExamples.narrow_file MoreExamples.narrow).
  - vm_compute. reflexivity.
  - vm_compute. reflexivity.
  - exact narrow_well_formed.
  - left. unfold MoreExamples.narrow, Reference.tabulate. cbn [xsize]. lia.
Defined.


(** ** No division by zero after validation *)

Lemma truediv_not_zero_division (a b : Z) :
  b <> 0 -> Float64.truediv a b <> Raise ZeroDivisionError.
Proof.
  intros Hb. unfold Float64.truediv.
  destruct (Z.eqb_spec b 0) as [|_]; [contradiction|].
  destruct (Float64.is_infinite _); discriminate.
Qed.

Lemma new_img_size_not_zero_division (img_width img_height bb_width bb_height : Z) :
  img_width <> 0 -> img_height <> 0 -> bb_height <> 0 ->
  new_img_size img_width img_height bb_width bb_height <> Raise ZeroDivisionError.
Proof.
  intros Hiw Hih Hbh. unfold new_img_size.
  pose proof (truediv_not_zero_division bb_width bb_height Hbh) as H1.
  pose proof (truediv_not_zero_division img_width img_height Hih) as H2.
  pose proof (truediv_not_zero_division img_height img_width Hiw) as H3.
  destruct (Float64.truediv bb_width bb_height) as [bb_ratio|e];
    [|cbn [Py.bind]; intros [= ->]; apply H1; reflexivity].
  cbn [Py.bind].
  destruct (Float64.truediv img_width img_height) as [img_ratio|e];
    [|cbn [Py.bind]; intros [= ->]; apply H2; reflexivity].
  cbn [Py.bind].
  assert (Hmul : forall x n, Float64.mul_int x n <> Raise ZeroDivisionError).
  { intros x n. unfold Float64.mul_int.
    destruct (Float64.is_infinite _); discriminate. }
  assert (Hint : forall x, Float64.to_int x <> Raise ZeroDivisionError).
  { intros x. destruct x; discriminate. }
  destruct (Float64.gt bb_ratio img_ratio).
  - cbn [Py.bind].
    pose proof (Hmul img_ratio bb_height) as Hm.
    destruct (Float64.mul_int img_ratio bb_height) as [x|e];
      [|cbn [Py.bind]; intros [= ->]; apply Hm; reflexivity].
    cbn [Py.bind int_].
    pose proof (Hint x) as Hx.
    destruct (Float64.to_int x) as [w|e];
      [|cbn [Py.bind]; intros [= ->]; apply Hx; reflexivity].
    cbn [Py.bind]. discriminate.
  - destruct (Float64.truediv img_height img_width) as [q|e];
      [|cbn [Py.bind]; intros [= ->]; apply H3; reflexivity].
    cbn [Py.bind].
    pose proof (Hmul q bb_width) as Hm.
    destruct (Float64.mul_int q bb_width) as [x|e];
      [|cbn [Py.bind]; intros [= ->]; apply Hm; reflexivity].
    cbn [Py.bind int_].
    pose proof (Hint x) as Hx.
    destruct (Float64.to_int x) as [h|e];
      [|cbn [Py.bind]; intros [= ->]; apply Hx; reflexivity].
    cbn [Py.bind]. discriminate.
Qed.

(** X22.  With arguments that [parse_args] returned and a decoded image
    that has a bounding box or none, the margin unpacks to four integers,
    the box left between the margins has a positive width and height, the
    cropped image has too, and so the size computation does not divide by
    zero. *)
Theorem validated_run_never_divides_by_zero (ns : namespace) (a : args)
    (image : raster rgba) (bb : option box) :
  parse_args ns = Ok a ->
  well_formed image ->
  bounding_box image = Ok bb ->
  exists top right bottom left,
    unpack_margin (margin a) = Ok (top, right, bottom, left) /\
    0 < width a - left - right /\
    0 < height a - top - bottom /\
    new_img_size (xsize (crop image bb)) (ysize (crop image bb))
      (width a - left - right) (height a - top - bottom)
    <> Raise ZeroDivisionError.
Proof.
  intros Hargs Hwf Hbox.
  destruct (parse_args_ok ns a Hargs)
    as (t & r & b & l & _ & _ & _ & Hm & Hw & Hh & _).
  destruct (crop_bounding_box_facts image bb Hwf Hbox) as (_ & Hcx & Hcy & _).
  exists t, r, b, l. rewrite Hm. split; [reflexivity|].
  split; [lia|]. split; [lia|].
  apply new_img_size_not_zero_division; lia.
Qed.

Lemma validated_run_never_divides_by_zero_witness :
  exists top right bottom left,
    unpack_margin (margin Examples.parsed) = Ok (top, right, bottom, left) /\
    0 < width Examples.parsed - left - right /\
    0 < height Examples.parsed - top - bottom /\
    new_img_size (xsize (crop Examples.logo_40 (Some (10, 10, 30, 30))))
      (ysize (crop Examples.logo_40 (Some (10, 10, 30, 30))))
      (width Examples.parsed - left - right) (height Examples.parsed - top - bottom)
    <> Raise ZeroDivisionError.
Proof.
  apply (validated_run_never_divides_by_zero Examples.ns Examples.parsed
           Examples.logo_40 (Some (10, 10, 30, 30))).
  - vm_compute. reflexivity.
  - exact logo_40_well_formed.
  - vm_compute. reflexivity.
Defined.
